(** * AICodeBot: model selection, git context, directory rendering, sidekick loop

    A shallow embedding of [aicodebot/coder.py] and of the session
    synchronisation step of [aicodebot/commands/sidekick.py].

    Conventions.
    - A Python [str] is a Rocq [string] holding its UTF-8 encoding.
    - A Python [int] is a [Z]; a Python [float] is an IEEE-754 binary64
      value of [SpecFloat], rounded to nearest, ties to even.
    - A Python exception is the [Raise] case of [result]. *)

From Stdlib Require Import ZArith Lia List String Ascii Bool.
From Stdlib Require Import DecimalString DecimalZ DecimalPos.
From Stdlib Require Import Floats.SpecFloat.
From stdpp Require Import base gmap strings list.

Local Open Scope string_scope.
Local Open Scope Z_scope.
Local Open Scope list_scope.

(** ** Python values shared by all modules *)

Inductive exn : Type :=
| OverflowError
| ValueError
| IndexError
| OSError (path : string)
| IsADirectoryError
| CalledProcessError (cmd : list string).

Inductive result (A : Type) : Type :=
| Ok (a : A)
| Raise (e : exn).
Arguments Ok {A} a.
Arguments Raise {A} e.

#[export] Instance result_ret : MRet result := λ A a, Ok a.

#[export] Instance result_bind : MBind result := λ A B k m,
  match m with
  | Ok a => k a
  | Raise e => Raise e
  end.

(** [for item in items: structure += f(item)] *)
Definition accumulate {M : Type → Type} `{!MRet M, !MBind M} {A : Type}
    (f : A → M string) : list A → string → M string :=
  fix go (items : list A) (structure : string) : M string :=
    match items with
    | [] => mret structure
    | item :: more => s ← f item; go more (structure +:+ s)
    end.

Module PyFloat.

(** binary64 *)
Definition prec : Z := 53.
Definition emax : Z := 1024.

(** [float(z)] for an int [z]: the nearest double, ties to even;
    an int beyond the range of doubles raises OverflowError. *)
Definition of_int (z : Z) : result spec_float :=
  match binary_normalize prec emax z 0 false with
  | S754_infinity _ => Raise OverflowError
  | f => Ok f
  end.

Definition mul (x y : spec_float) : spec_float := SFmul prec emax x y.

(** The literal [1.05]: the double 0x3FF0CCCCCCCCCCCD. *)
Definition lit_1_05 : spec_float :=
  S754_finite false 4728779608739021 (-52).

(** [int(x)]: truncation toward zero. *)
Definition to_int (x : spec_float) : result Z :=
  match x with
  | S754_zero _ => Ok 0
  | S754_infinity _ => Raise OverflowError
  | S754_nan => Raise ValueError
  | S754_finite s m e =>
      Ok (cond_Zopp s
            (match e with
             | Zneg p => Z.shiftr (Zpos m) (Zpos p)
             | _ => Z.shiftl (Zpos m) e
             end))
  end.

End PyFloat.

(** [str(z)] for an int, as an f-string renders it. *)
Definition str_of_int (z : Z) : string :=
  NilZero.string_of_int (Z.to_int z).

(** ** Logging: the records handed to [logger] *)

Inductive level : Type := DEBUG | INFO | CRITICAL.

Definition log_record : Type := (level * string)%type.

(** ** coder.py, model selection *)

Module Coder.

(** What [read_config()] and the provider's engine listing return. *)
Record environ : Type := {
  config : gmap string string;
  (** ids returned by [Coder.get_openai_supported_engines()] *)
  openai_engines : list string
}.

Definition has_openrouter_key (env : environ) : bool :=
  bool_decide (is_Some (config env !! "openrouter_api_key")).

(** The two [model_options] dicts, in insertion order. *)
Definition openrouter_model_options : list (string * Z) :=
  [ ("openai/gpt-4", 8192); ("openai/gpt-4-32k", 32768) ].

Definition openai_model_options : list (string * Z) :=
  [ ("gpt-4", 8192); ("gpt-4-32k", 32768);
    ("gpt-3.5-turbo", 4096); ("gpt-3.5-turbo-16k", 16384) ].

Definition model_options (env : environ) : list (string * Z) :=
  if has_openrouter_key env then openrouter_model_options
  else openai_model_options.

Definition supported_engines (env : environ) : list string :=
  if has_openrouter_key env then fst <$> openrouter_model_options
  else openai_engines env.

(** [token_size = int(token_size * 1.05)] *)
Definition compensate (token_size : Z) : result Z :=
  match PyFloat.of_int token_size with
  | Ok f => PyFloat.to_int (PyFloat.mul f PyFloat.lit_1_05)
  | Raise e => Raise e
  end.

(** The [for model, max_tokens in model_options.items()] loop. *)
Fixpoint first_fit (options : list (string * Z)) (engines : list string)
    (token_size : Z) : option string :=
  match options with
  | [] => None
  | (model, max_tokens) :: rest =>
      if bool_decide (model ∈ engines) && (token_size <=? max_tokens)%Z
      then Some model
      else first_fit rest engines token_size
  end.

Definition msg_using (model : string) (token_size : Z) : string :=
  "Using " +:+ model +:+ " for token size " +:+ str_of_int token_size.

Definition msg_too_large (token_size : Z) : string :=
  "The context is too large (" +:+ str_of_int token_size +:+
  ") for any of the models supported by your API key. 😞".

Definition msg_openrouter_hint : string :=
  "If you provide an Open Router API key, you can access larger models, up to 32k tokens".

(** [Coder.get_llm_model_name]: the returned name ([None] when no model
    fits) together with the log records emitted. *)
Definition get_llm_model_name (env : environ) (token_size : Z)
    : result (option string * list log_record) :=
  match compensate token_size with
  | Raise e => Raise e
  | Ok token_size =>
      match first_fit (model_options env) (supported_engines env) token_size with
      | Some model => Ok (Some model, [(INFO, msg_using model token_size)])
      | None =>
          Ok (None,
              (CRITICAL, msg_too_large token_size) ::
              (if has_openrouter_key env then []
               else [(CRITICAL, msg_openrouter_hint)]))
      end
  end.

End Coder.


(** ** Python string operations *)

Module PyStr.

(** [sep.join(parts)] *)
Fixpoint join (sep : string) (parts : list string) : string :=
  match parts with
  | [] => ""
  | [p] => p
  | p :: ps => p +:+ sep +:+ join sep ps
  end.

(** [s.split(sep)] for a one-character separator: never empty. *)
Fixpoint split (sep : ascii) (s : string) : list string :=
  match s with
  | EmptyString => [""]
  | String c s' =>
      if Ascii.eqb c sep then "" :: split sep s'
      else match split sep s' with
           | p :: ps => String c p :: ps
           | [] => [String c ""]
           end
  end.

(** [xs[i]], raising IndexError out of range. *)
Definition index {A : Type} (xs : list A) (i : nat) : result A :=
  match xs !! i with
  | Some x => Ok x
  | None => Raise IndexError
  end.

(** [s[0]]: the first character. Compared only against ASCII letters,
    for which the first character and the first byte coincide. *)
Definition first_char (s : string) : result ascii :=
  match s with
  | EmptyString => Raise IndexError
  | String c _ => Ok c
  end.

(** Number of bytes of a line boundary starting [s], 0 when there is
    none.  [str.splitlines] breaks at \n, \r, \r\n, \v, \f, \x1c,
    \x1d, \x1e, U+0085, U+2028 and U+2029. *)
Definition linebreak_len (s : string) : nat :=
  match s with
  | String "010" _ | String "011" _ | String "012" _
  | String "028" _ | String "029" _ | String "030" _ => 1
  | String "013" (String "010" _) => 2
  | String "013" _ => 1
  | String "194" (String "133" _) => 2
  | String "226" (String "128" (String "168" _))
  | String "226" (String "128" (String "169" _)) => 3
  | _ => 0
  end%nat.

(** [skip] counts the bytes of the current boundary still to be dropped,
    [line] is the line read so far. *)
Fixpoint splitlines_from (s : string) (skip : nat) (line : string)
    : list string :=
  match s with
  | EmptyString => if String.eqb line "" then [] else [line]
  | String c s' =>
      match skip with
      | S k => splitlines_from s' k line
      | O =>
          match linebreak_len s with
          | O => splitlines_from s' O (line +:+ String c "")
          | S k => line :: splitlines_from s' k ""
          end
      end
  end.

(** [s.splitlines()] *)
Definition splitlines (s : string) : list string :=
  splitlines_from s 0 "".

(** [s * n] *)
Fixpoint repeat (s : string) (n : nat) : string :=
  match n with
  | O => ""
  | S k => s +:+ repeat s k
  end.

End PyStr.

(** ** Effects: the versioning backend and the file system

    [exec_and_get_output] runs a command and returns its output;
    [Path(p).read_text()] reads a file.  Both are taken from a snapshot
    [world]; a computation returns its outcome and the calls it made, in
    order. *)

Record world : Type := {
  exec_and_get_output : list string → result string;
  read_text : string → result string
}.

Inductive event : Type :=
| EvExec (cmd : list string)
| EvRead (path : string).

Definition io (A : Type) : Type := world → result A * list event.

#[export] Instance io_ret : MRet io := λ A a _, (Ok a, []).

#[export] Instance io_bind : MBind io := λ A B k m w,
  match m w with
  | (Ok a, t1) => let '(r, t2) := k a w in (r, t1 ++ t2)
  | (Raise e, t1) => (Raise e, t1)
  end.

Definition lift {A : Type} (r : result A) : io A := λ _, (r, []).

Definition exec (cmd : list string) : io string :=
  λ w, (exec_and_get_output w cmd, [EvExec cmd]).

Definition read (path : string) : io string :=
  λ w, (read_text w path, [EvRead path]).

(** ** coder.py, git context *)

Module Git.

Definition base_git_diff : list string := ["git"; "diff"; "-U10"].

(** [Coder.git_staged_files] *)
Definition git_staged_files : io (list string) :=
  out ← exec ["git"; "diff"; "--cached"; "--name-only"];
  mret (PyStr.splitlines out).

(** One iteration of the [for status in file_status] loop: the strings
    it appends to [diffs]. *)
Definition diff_entry (diff_type : string) (status : string)
    : io (list string) :=
  let status_parts := PyStr.split "009" status in
  part0 ← lift (PyStr.index status_parts 0);
  status_code ← lift (PyStr.first_char part0);
  if Ascii.eqb status_code "A" then
    file_name ← lift (PyStr.index status_parts 1);
    contents ← read file_name;
    mret ["## New file added: " +:+ file_name; contents]
  else if Ascii.eqb status_code "R" then
    old_file_name ← lift (PyStr.index status_parts 1);
    new_file_name ← lift (PyStr.index status_parts 2);
    d ← exec (base_git_diff ++ [diff_type; "--"; new_file_name]);
    mret ["## File renamed: " +:+ old_file_name +:+ " -> " +:+ new_file_name; d]
  else if Ascii.eqb status_code "D" then
    file_name ← lift (PyStr.index status_parts 1);
    mret ["## File deleted: " +:+ file_name]
  else
    file_name ← lift (PyStr.index status_parts 1);
    d ← exec (base_git_diff ++ [diff_type; "--"; file_name]);
    mret ["## File changed: " +:+ file_name; d].

(** The whole loop: [diffs] after the last iteration. *)
Fixpoint diff_loop (diff_type : string) (file_status : list string)
    : io (list string) :=
  match file_status with
  | [] => mret []
  | status :: rest =>
      d ← diff_entry diff_type status;
      ds ← diff_loop diff_type rest;
      mret (d ++ ds)
  end.

(** ["--cached"] when [staged_files] is a non-empty list, else ["HEAD"]. *)
Definition diff_base (staged_files : list string) : string :=
  match staged_files with
  | [] => "HEAD"
  | _ :: _ => "--cached"
  end.

(** [if commit:] *)
Definition truthy (commit : option string) : option string :=
  match commit with
  | Some "" | None => None
  | Some c => Some c
  end.

(** [Coder.git_diff_context] *)
Definition git_diff_context (commit : option string)
    (files : option (list string)) : io string :=
  match truthy commit with
  | Some commit => exec ["git"; "show"; "--format=%B"; commit]
  | None =>
      staged_files ← git_staged_files;
      let diff_type := diff_base staged_files in
      out ← exec (["git"; "diff"; diff_type; "--name-status"]
                    ++ default [] files);
      let file_status := PyStr.splitlines out in
      diffs ← diff_loop diff_type file_status;
      mret (PyStr.join (String "010" "") diffs)
  end.

End Git.

(** ** coder.py, directory structure *)

Module Tree.

(** A file-system snapshot below a path: regular files with their text
    and directories with their entries in [iterdir()] order. *)
#[warnings="-register-all"]
Inductive node : Type :=
| File (name : string) (content : string)
| Dir (name : string) (entries : list node).

(** *** Reading an ignore file *)

(** The lines a text-mode file object yields: each ends at a \n, a \r
    or a \r\n, which it reports as a single \n. *)
Fixpoint lines_from (s : string) (after_cr : bool) (line : string)
    : list string :=
  match s with
  | EmptyString => if String.eqb line "" then [] else [line]
  | String c s' =>
      if Ascii.eqb c "010" then
        if after_cr then lines_from s' false line
        else (line +:+ String "010" "") :: lines_from s' false ""
      else if Ascii.eqb c "013" then
        (line +:+ String "010" "") :: lines_from s' true ""
      else lines_from s' false (line +:+ String c "")
  end.

Definition lines (content : string) : list string :=
  lines_from content false "".

(** Number of bytes of a whitespace character starting [s], 0 when
    there is none ([str.isspace]: U+0009..000D, U+001C..0020, U+0085,
    U+00A0, U+1680, U+2000..200A, U+2028, U+2029, U+202F, U+205F,
    U+3000). *)
Definition space_len (s : string) : nat :=
  match s with
  | String c rest =>
      let n := nat_of_ascii c in
      if ((9 <=? n) && (n <=? 13) || (28 <=? n) && (n <=? 32))%nat then 1
      else match n, rest with
           | 194, String d _ =>
               if Ascii.eqb d "133" || Ascii.eqb d "160" then 2 else 0
           | 225, String "154" (String "128" _) => 3
           | 226, String "128" (String d _) =>
               let k := nat_of_ascii d in
               if ((128 <=? k) && (k <=? 138) || (k =? 168) || (k =? 169)
                   || (k =? 175))%nat then 3 else 0
           | 226, String "129" (String "159" _) => 3
           | 227, String "128" (String "128" _) => 3
           | _, _ => 0
           end
  | EmptyString => 0
  end%nat.

(** The same test on a reversed string: a whitespace character ending
    the original. *)
Definition space_len_rev (s : string) : nat :=
  match s with
  | String c0 (String c1 (String c2 _)) =>
      match space_len (String c2 (String c1 (String c0 ""))) with
      | 3%nat => 3
      | _ =>
          match space_len (String c1 (String c0 "")) with
          | 2%nat => 2
          | _ => match space_len (String c0 "") with 1%nat => 1 | _ => 0 end
          end
      end
  | String c0 (String c1 _) =>
      match space_len (String c1 (String c0 "")) with
      | 2%nat => 2
      | _ => match space_len (String c0 "") with 1%nat => 1 | _ => 0 end
      end
  | String c0 _ => match space_len (String c0 "") with 1%nat => 1 | _ => 0 end
  | EmptyString => 0
  end%nat.

Fixpoint drop_spaces (len : string → nat) (s : string) (skip : nat)
    : string :=
  match s with
  | EmptyString => ""
  | String _ s' =>
      match skip with
      | S k => drop_spaces len s' k
      | O => match len s with
             | O => s
             | S k => drop_spaces len s' k
             end
      end
  end.

(** [s.strip()] *)
Definition strip (s : string) : string :=
  let s := drop_spaces space_len s 0 in
  String.rev (drop_spaces space_len_rev (String.rev s) 0).

(** [s.startswith("#")] *)
Definition is_comment (s : string) : bool :=
  match s with
  | String "#" _ => true
  | _ => false
  end.

(** [line.strip() for line in f if line.strip() and not line.startswith("#")] *)
Definition patterns_of (content : string) : list string :=
  strip <$> filter (λ line, strip line ≠ "" ∧ is_comment line = false)
                   (lines content).

(** [base_path / ".gitignore"]: absent, a readable file, or a directory
    (which exists and cannot be opened). *)
Inductive gitignore : Type :=
| Absent
| Readable (content : string)
| Unreadable.

Fixpoint find_gitignore (entries : list node) : gitignore :=
  match entries with
  | [] => Absent
  | File nm content :: rest =>
      if String.eqb nm ".gitignore" then Readable content
      else find_gitignore rest
  | Dir nm _ :: rest =>
      if String.eqb nm ".gitignore" then Unreadable
      else find_gitignore rest
  end.

Definition gitignore_file (base_path : node) : gitignore :=
  match base_path with
  | File _ _ => Absent
  | Dir _ entries => find_gitignore entries
  end.

Definition dir_line (indent : nat) (nm : string) : string :=
  PyStr.repeat "  " indent +:+ "- [Directory] " +:+ nm +:+ String "010" "".

Definition file_line (indent : nat) (nm : string) : string :=
  PyStr.repeat "  " indent +:+ "- [File] " +:+ nm +:+ String "010" "".

(** *** The store of Python list objects

    [ignore_patterns] is a reference to a list object; the recursive
    call receives the caller's reference. *)

Abbreviation loc := nat.
Abbreviation heap := (list (list string)).

Definition st (A : Type) : Type := heap → result A * heap.

#[export] Instance st_ret : MRet st := λ A a h, (Ok a, h).

#[export] Instance st_bind : MBind st := λ A B k m h,
  match m h with
  | (Ok a, h') => k a h'
  | (Raise e, h') => (Raise e, h')
  end.

Definition raise {A : Type} (e : exn) : st A := λ h, (Raise e, h).

(** [ignore_patterns.copy() if ignore_patterns else []] *)
Definition copy_or_new (ignore_patterns : option loc) : st loc := λ h,
  let fresh :=
    match ignore_patterns with
    | Some l =>
        match h !! l with
        | Some (p :: ps) => p :: ps
        | _ => []
        end
    | None => []
    end in
  (Ok (length h), h ++ [fresh]).

(** [ignore_patterns.extend(new)] *)
Definition extend (l : loc) (new : list string) : st unit := λ h,
  (Ok tt, alter (λ old, old ++ new) l h).

(** reading the list behind a reference *)
Definition deref (l : loc) : st (list string) := λ h,
  (Ok (default [] (h !! l)), h).

(** Lines 26-31: the patterns of the ignore file at this level, if it
    exists, are appended to the list. *)
Definition read_gitignore (use_gitignore : bool) (base_path : node)
    (ignore_patterns : loc) : st unit :=
  if use_gitignore then
    match gitignore_file base_path with
    | Absent => mret tt
    | Readable content => extend ignore_patterns (patterns_of content)
    | Unreadable => raise IsADirectoryError
    end
  else mret tt.

Section Render.

(** [fnmatch.fnmatch(name, pattern)] *)
Variable fnmatch : string → string → bool.

Definition ignored (nm : string) (patterns : list string) : bool :=
  existsb (fnmatch nm) patterns.

(** [Coder.generate_directory_structure] *)
Fixpoint generate_directory_structure (path : node)
    (ignore_patterns : option loc) (use_gitignore : bool) (indent : nat)
    {struct path} : st string :=
  ignore_patterns ← copy_or_new ignore_patterns;
  _ ← read_gitignore use_gitignore path ignore_patterns;
  match path with
  | Dir nm entries =>
      patterns ← deref ignore_patterns;
      if ignored nm patterns then mret ""
      else
        accumulate
          (λ item, generate_directory_structure item
                     (Some ignore_patterns) use_gitignore (S indent))
          entries (dir_line indent nm)
  | File nm _ =>
      patterns ← deref ignore_patterns;
      if ignored nm patterns then mret ""
      else mret (file_line indent nm)
  end.

(** *** The renderer with the pattern list passed by value

    The design the specification describes: each call receives the
    inherited patterns as a value and appends the patterns of the
    ignore file at its own level for its own subtree. *)

Definition own_patterns (use_ignore_file : bool) (path : node)
    : result (list string) :=
  if use_ignore_file then
    match gitignore_file path with
    | Absent => Ok []
    | Readable content => Ok (patterns_of content)
    | Unreadable => Raise IsADirectoryError
    end
  else Ok [].

Fixpoint render (path : node) (inherited : list string)
    (use_ignore_file : bool) (depth : nat) {struct path} : result string :=
  own ← own_patterns use_ignore_file path;
  let patterns := inherited ++ own in
  match path with
  | Dir nm entries =>
      if ignored nm patterns then Ok ""
      else
        accumulate (λ item, render item patterns use_ignore_file (S depth))
          entries (dir_line depth nm)
  | File nm _ =>
      if ignored nm patterns then Ok "" else Ok (file_line depth nm)
  end.

End Render.

(** A matcher for patterns made of literal characters, [*] and [?],
    on which it agrees with [fnmatch.fnmatch] for ASCII names. *)
Fixpoint fnmatch_basic_pat (pattern : string) : string → bool :=
  match pattern with
  | EmptyString => λ nm, String.eqb nm ""
  | String "*" pattern' =>
      fix star (nm : string) : bool :=
        fnmatch_basic_pat pattern' nm ||
        match nm with
        | EmptyString => false
        | String _ nm' => star nm'
        end
  | String "?" pattern' => λ nm,
      match nm with
      | EmptyString => false
      | String _ nm' => fnmatch_basic_pat pattern' nm'
      end
  | String c pattern' => λ nm,
      match nm with
      | EmptyString => false
      | String d nm' => Ascii.eqb c d && fnmatch_basic_pat pattern' nm'
      end
  end.

Definition fnmatch_basic (nm pattern : string) : bool :=
  fnmatch_basic_pat pattern nm.

End Tree.

(** ** commands/sidekick.py, keeping the session store in step *)

(** Modelled from the spec: the Session Store ([aicodebot.config.Session]
    is not among the sources).  It holds one key-value record, read and
    written as a whole; a read returns the record last written. *)
Module Session.

Abbreviation record := (gmap string (list string)).

Definition read (store : record) : record := store.

Definition write (session_data : record) (store : record) : record :=
  session_data.

End Session.

Module Sidekick.

(** What [chat.parse_human_input] returns. *)
Inductive parsed : Type :=
| BREAK
| CONTINUE
| Request (text : string).

(** How a turn leaves [chat.files]: the same set object, holding [new]
    afterwards (unchanged, or edited in place), or a new set object. *)
Inductive files_update : Type :=
| InPlace (new : gset string)
| Rebind (new : gset string).

Definition new_files (u : files_update) : gset string :=
  match u with InPlace new | Rebind new => new end.

(** One pass through the loop as the input collaborator decides it
    ([aicodebot.input.Chat] is not among the sources): what the parse
    does to [chat.files] and what it returns; [interrupted] tells whether
    the model call of a request ends in KeyboardInterrupt. *)
Record turn : Type := {
  update : files_update;
  outcome : parsed;
  interrupted : bool
}.

Abbreviation loc := nat.

Record state : Type := {
  (** the Python set objects *)
  objects : list (gset string);
  (** [chat.files] and [completer.files]: references to set objects *)
  chat_files : loc;
  completer_files : loc;
  (** the Session Store and the records written to it, oldest first *)
  store : Session.record;
  writes : list Session.record
}.

Definition deref (s : state) (l : loc) : gset string :=
  default ∅ (objects s !! l).

(** Lines 34-51: the file list the session starts from.  [auto] is the
    result of [Coder.auto_file_context]. *)
Definition initial_files (files : list string) (no_files : bool)
    (store : Session.record) (auto : list string) : list string :=
  match files with
  | _ :: _ => files
  | [] =>
      if no_files then []
      else match Session.read store !! "files" with
           | Some (f :: fs) => f :: fs
           | _ => auto
           end
  end.

(** Lines 51-80: [files = set(files)], [Chat(console, files)],
    [completer.files = files].  [chat_copies] tells whether [Chat] keeps
    a copy of the set or the set object it is given. *)
Definition init (files : list string) (chat_copies : bool)
    (store : Session.record) : state :=
  let files : gset string := list_to_set files in
  {| objects := if chat_copies then [files; files] else [files];
     chat_files := if chat_copies then 1%nat else 0%nat;
     completer_files := 0%nat;
     store := store;
     writes := [] |}.

(** [chat.parse_human_input(human_input)] acting on [chat.files] *)
Definition parse (u : files_update) (s : state) : state :=
  match u with
  | InPlace new =>
      {| objects := <[chat_files s := new]> (objects s);
         chat_files := chat_files s;
         completer_files := completer_files s;
         store := store s; writes := writes s |}
  | Rebind new =>
      {| objects := objects s ++ [new];
         chat_files := length (objects s);
         completer_files := completer_files s;
         store := store s; writes := writes s |}
  end.

(** Lines 96-100 *)
Definition sync (s : state) : state :=
  if bool_decide (deref s (completer_files s) ≠ deref s (chat_files s))
  then
    let session_data := Session.read (store s) in
    let session_data :=
      <["files" := elements (deref s (chat_files s))]> session_data in
    {| objects := objects s;
       chat_files := chat_files s;
       completer_files := chat_files s;
       store := Session.write session_data (store s);
       writes := writes s ++ [session_data] |}
  else s.

(** The [while True] loop over the turns the user takes; [request] tells
    whether a request was given on the command line. *)
Fixpoint loop (request : bool) (turns : list turn) (s : state) : state :=
  match turns with
  | [] => s
  | t :: rest =>
      let s := parse (update t) s in
      match outcome t with
      | BREAK => s
      | CONTINUE => loop request rest (sync s)
      | Request _ =>
          let s := sync s in
          if interrupted t then loop request rest s
          else if request then s
          else loop request rest s
      end
  end.

(** The whole command, from its arguments and the stored session. *)
Definition sidekick (request : bool) (no_files : bool) (files : list string)
    (auto : list string) (chat_copies : bool) (store : Session.record)
    (turns : list turn) : state :=
  loop request turns
    (init (initial_files files no_files store auto) chat_copies store).

End Sidekick.

(** ** coder.py, the changed-file listings *)

Module GitFiles.

(** [Coder.git_unstaged_files] *)
Definition git_unstaged_files : io (list string) :=
  out ← exec ["git"; "diff"; "HEAD"; "--name-only"];
  mret (PyStr.splitlines out).

End GitFiles.

(** ** coder.py, the language model handle *)

Module Llm.

(** [config[key]] *)
Inductive keyed (A : Type) : Type :=
| Found (a : A)
| KeyError (key : string).
Arguments Found {A} a.
Arguments KeyError {A} key.

Definition item (config : gmap string string) (key : string) : keyed string :=
  match config !! key with
  | Some v => Found v
  | None => KeyError key
  end.

(** [s.replace(old, new)] for a non-empty [old]: the occurrences of
    [old] are replaced from left to right; [skip] counts the bytes of
    the current occurrence still to be dropped. *)
Fixpoint replace_from (old new : string) (s : string) (skip : nat) : string :=
  match s with
  | EmptyString => ""
  | String c s' =>
      match skip with
      | S k => replace_from old new s' k
      | O =>
          if String.prefix old s
          then new +:+ replace_from old new s' (String.length old - 1)
          else String c (replace_from old new s' 0)
      end
  end.

Definition replace (old new s : string) : string := replace_from old new s 0.

(** The attributes of the [openai] module the functions assign. *)
Record openai_module : Type := {
  api_key : option string;
  api_base : string
}.

Definition DEFAULT_MAX_TOKENS : Z := 512.

(** The literals [0.05] and [0.6]: the doubles 0x3FA999999999999A and
    0x3FE3333333333333. *)
Definition PRECISE_TEMPERATURE : spec_float :=
  S754_finite false 7205759403792794 (-57).
Definition CREATIVE_TEMPERATURE : spec_float :=
  S754_finite false 5404319552844595 (-53).

Definition router_headers : list (string * string) :=
  [("HTTP-Referer", "https://aicodebot.dev"); ("X-Title", "AICodeBot")].

Section Handle.

(** the type of the [callbacks] and [live] arguments *)
Variable callback : Type.

(** The keyword arguments [ChatOpenAI] is built from. *)
Record chat_openai : Type := {
  openai_api_key : string;
  model : string;
  max_tokens : Z;
  verbose : bool;
  temperature : spec_float;
  streaming : bool;
  callbacks : option callback;
  tiktoken_model_name : string;
  headers : option (list (string * string))
}.

(** [Coder.get_llm]: the handle and the [openai] module afterwards. *)
Definition get_llm (config : gmap string string) (openai : openai_module)
    (model_name : string) (verbose : bool) (response_token_size : Z)
    (temperature : spec_float) (live : option callback) (streaming : bool)
    (callbacks : option callback) : keyed (chat_openai * openai_module) :=
  if bool_decide (is_Some (config !! "openrouter_api_key")) then
    match item config "openrouter_api_key" with
    | KeyError key => KeyError key
    | Found key =>
        let openai :=
          {| api_key := Some key;
             api_base := "https://openrouter.ai/api/v1" |} in
        Found
          ({| openai_api_key := key;
              model := model_name;
              max_tokens := response_token_size;
              verbose := verbose;
              temperature := temperature;
              streaming := streaming;
              callbacks := callbacks;
              tiktoken_model_name := replace "openai/" "" model_name;
              headers := Some router_headers |}, openai)
    end
  else
    match item config "openai_api_key" with
    | KeyError key => KeyError key
    | Found key =>
        let openai :=
          {| api_key := Some key; api_base := api_base openai |} in
        Found
          ({| openai_api_key := key;
              model := model_name;
              max_tokens := response_token_size;
              verbose := verbose;
              temperature := temperature;
              streaming := streaming;
              callbacks := callbacks;
              tiktoken_model_name := model_name;
              headers := None |}, openai)
    end.

End Handle.

(** [Coder.get_llm_headers] *)
Definition get_llm_headers (config : gmap string string)
    : option (list (string * string)) :=
  if bool_decide (is_Some (config !! "openrouter_api_key"))
  then Some router_headers
  else None.

End Llm.

(** ** commands/sidekick.py, the agent loop *)

Module Agent.

(** [s.split(sep)[0]] for a non-empty [sep]: what precedes the first
    occurrence of [sep]. *)
Fixpoint before (sep s : string) : string :=
  match s with
  | EmptyString => ""
  | String c s' =>
      if String.prefix sep s then "" else String c (before sep s')
  end.

(** [s.lower()[-2:] == r"\e"]: the last two characters are a backslash
    and an [e] of either case. *)
Definition asks_for_edit (s : string) : bool :=
  match String.rev s with
  | String e (String "\" _) => Ascii.eqb e "e" || Ascii.eqb e "E"
  | _ => false
  end.

(** [s[:-2]] *)
Definition drop_last2 (s : string) : string :=
  match String.rev s with
  | String _ (String _ r) => String.rev r
  | _ => ""
  end.

(** One pass through the loop as its surroundings decide it: what
    [input_prompt] returns, what [click.edit] returns if the editor is
    opened, and what [agent.run] returns if it is called. *)
Record turn : Type := {
  typed : string;
  edited : option string;
  response : string
}.

(** What a pass does, in order. *)
Inductive action : Type :=
| Edit (text : string)
| PrintRequest (text : string)
| Run (human_input : option string)
| PrintResponse (text : string).

(** [if edited_input:] *)
Definition banner (edited_input : option string) : list action :=
  match edited_input with
  | Some (String c s) => [PrintRequest ("Request:" +:+ String "010" (String c s))]
  | _ => []
  end.

(** Lines 177-180 *)
Definition respond (t : turn) (human_input : option string) : list action :=
  [Run human_input; PrintResponse (before "Action:" (response t))].

(** The [while True] loop of [sidekick_agent] over the turns taken,
    from the current [edited_input]. *)
Fixpoint sidekick_agent (turns : list turn) (edited_input : option string)
    : list action :=
  match turns with
  | [] => []
  | t :: rest =>
      let human_input := Tree.strip (typed t) in
      if String.eqb human_input "" then sidekick_agent rest edited_input
      else if asks_for_edit human_input then
        Edit (drop_last2 human_input) ::
        banner (edited t) ++ respond t (edited t) ++
        sidekick_agent rest (edited t)
      else
        banner edited_input ++ respond t (Some human_input) ++
        sidekick_agent rest edited_input
  end.

End Agent.

(** ** commands/sidekick.py, the model of each request *)

Module Models.

Section Serve.

(** [lmm.choose_model] *)
Variable choose_model : Z → option string.

(** The model handle and the chain: what model each was built for. *)
Record state : Type := {
  current_model_name : option string;
  langchain_model : option string;
  chain : option string
}.

(** What a pass shows and runs. *)
Inductive action : Type :=
| Notice (model_name : option string) (request_token_size : Z)
| ChainRun (built_for : option string) (task : string).

(** Lines 62-67 and 82 *)
Definition init (request_token_size : Z) : state :=
  let model_name := choose_model request_token_size in
  {| current_model_name := model_name;
     langchain_model := model_name;
     chain := model_name |}.

(** Lines 113-130: one request of [request_token_size] tokens. *)
Definition serve (task : string) (request_token_size : Z) (s : state)
    : state * list action :=
  let model_name := choose_model request_token_size in
  if bool_decide (model_name ≠ current_model_name s) then
    let model_name := choose_model request_token_size in
    ({| current_model_name := model_name;
        langchain_model := model_name;
        chain := model_name |},
     [Notice (choose_model request_token_size) request_token_size;
      ChainRun model_name task])
  else (s, [ChainRun (chain s) task]).

(** The requests of a session, each with its token size. *)
Fixpoint serve_all (requests : list (string * Z)) (s : state)
    : state * list action :=
  match requests with
  | [] => (s, [])
  | (task, size) :: rest =>
      let '(s, shown) := serve task size s in
      let '(s, later) := serve_all rest s in
      (s, shown ++ later)
  end.

End Serve.

End Models.

(** * Vocabulary of the properties *)

(** The line feed and the tab. *)
Definition LF : string := String "010" "".
Definition TAB : string := String "009" "".

(** A tier the request may use: offered by the engines and large enough. *)
Definition fits (engines : list string) (token_size : Z)
    (tier : string * Z) : Prop :=
  tier.1 ∈ engines ∧ token_size ≤ tier.2.

#[local] Instance fits_dec engines token_size tier :
  Decision (fits engines token_size tier) := and_dec _ _.

(** [model] names a tier of least capacity among those that fit. *)
Definition smallest_fitting (env : Coder.environ) (token_size : Z)
    (model : string) : Prop :=
  ∃ max_tokens,
    (model, max_tokens) ∈ Coder.model_options env ∧
    fits (Coder.supported_engines env) token_size (model, max_tokens) ∧
    ∀ tier, tier ∈ Coder.model_options env →
            fits (Coder.supported_engines env) token_size tier →
            max_tokens ≤ tier.2.


(** A session through the gateway, and one with a provider key that
    offers the listed engines. *)
Definition gateway_env : Coder.environ :=
  {| Coder.config := {[ "openrouter_api_key" := "sk-or" ]};
     Coder.openai_engines := [] |}.

Definition direct_env (engines : list string) : Coder.environ :=
  {| Coder.config := {[ "openai_api_key" := "sk" ]};
     Coder.openai_engines := engines |}.

Definition all_engines : list string :=
  ["gpt-3.5-turbo"; "gpt-3.5-turbo-16k"; "gpt-4"; "gpt-4-32k"].

(** The commands [git_diff_context] sends to the backend. *)
Definition staged_cmd : list string :=
  ["git"; "diff"; "--cached"; "--name-only"].

Definition name_status_cmd (base : string) (files : option (list string))
    : list string :=
  ["git"; "diff"; base; "--name-status"] ++ default [] files.

Definition diff_cmd (base file_name : string) : list string :=
  ["git"; "diff"; "-U10"; base; "--"; file_name].



(** The outcome of the loop over [pre ++ status :: post] when the
    iteration for [status] appends [entry] and makes the calls [calls]. *)
Definition between (pre : result (list string) * list event)
    (entry : list string) (calls : list event)
    (post : result (list string) * list event)
    : result (list string) * list event :=
  match pre with
  | (Ok d1, t1) =>
      match post with
      | (Ok d2, t2) => (Ok (d1 ++ entry ++ d2), t1 ++ calls ++ t2)
      | (Raise e, t2) => (Raise e, t1 ++ calls ++ t2)
      end
  | (Raise e, t1) => (Raise e, t1)
  end.

(** The outcome of [git_diff_context] without a commit, from the outcome
    of its loop. *)
Definition finish (base : string) (files : option (list string))
    (looped : result (list string) * list event) : result string * list event :=
  match looped with
  | (Ok diffs, t) =>
      (Ok (PyStr.join (LF) diffs),
       EvExec staged_cmd :: EvExec (name_status_cmd base files) :: t)
  | (Raise e, t) =>
      (Raise e, EvExec staged_cmd :: EvExec (name_status_cmd base files) :: t)
  end.

(** [text] holds [part] as a contiguous piece. *)
Definition embeds (text part : string) : Prop :=
  ∃ before after, text = before +:+ part +:+ after.

(** [c] occurs in [s]. *)
Fixpoint occurs (c : ascii) (s : string) : bool :=
  match s with
  | EmptyString => false
  | String d s' => Ascii.eqb c d || occurs c s'
  end.


(** A repository with staged changes: [a.py] modified, [b.py] added,
    [c.py] deleted. *)
Definition staged_world : world := {|
  exec_and_get_output := λ cmd,
    if decide (cmd = staged_cmd) then
      Ok ("a.py" +:+ LF +:+ "b.py" +:+ LF +:+ "c.py" +:+ LF)
    else if decide (cmd = name_status_cmd "--cached" None) then
      Ok ("M" +:+ TAB +:+ "a.py" +:+ LF +:+
          "A" +:+ TAB +:+ "b.py" +:+ LF +:+
          "D" +:+ TAB +:+ "c.py" +:+ LF)
    else if decide (cmd = diff_cmd "--cached" "a.py") then
      Ok ("@@ -1,3 +1,3 @@" +:+ LF)
    else Raise (CalledProcessError cmd);
  read_text := λ path,
    if decide (path = "b.py") then Ok ("print(1)" +:+ LF)
    else Raise (OSError path)
|}.

(** A repository without any change. *)
Definition clean_world : world := {|
  exec_and_get_output := λ cmd,
    if decide (cmd = staged_cmd) then Ok ""
    else if decide (cmd = name_status_cmd "HEAD" None) then Ok ""
    else Raise (CalledProcessError cmd);
  read_text := λ path, Raise (OSError path)
|}.

(** The patterns behind the reference a call receives. *)
Definition inherited (ignore_patterns : option Tree.loc) (h : Tree.heap)
    : list string :=
  match ignore_patterns with
  | Some l => default [] (h !! l)
  | None => []
  end.

(** A project whose sub-directory [a] ignores [x*] and whose top level
    ignores [*.pyc] and [build]. *)
Definition project : Tree.node :=
  Tree.Dir "proj" [
    Tree.File ".gitignore" ("*.pyc" +:+ LF +:+ "build" +:+ LF);
    Tree.Dir "a" [
      Tree.File ".gitignore" ("x*" +:+ LF);
      Tree.File "x1" ""; Tree.File "y1" "" ];
    Tree.Dir "b" [ Tree.File "x2" ""; Tree.File "m.pyc" "" ];
    Tree.Dir "build" [ Tree.File "z" "" ] ].

(** The active file set, the set last synchronised with the completer,
    and the set the Session Store holds. *)
Definition active (s : Sidekick.state) : gset string :=
  Sidekick.deref s (Sidekick.chat_files s).

Definition synced (s : Sidekick.state) : gset string :=
  Sidekick.deref s (Sidekick.completer_files s).

Definition persisted (store : Session.record) : gset string :=
  list_to_set (default [] (store !! "files")).

(** Both references point to set objects. *)
Definition well_formed (s : Sidekick.state) : Prop :=
  (Sidekick.chat_files s < length (Sidekick.objects s))%nat ∧
  (Sidekick.completer_files s < length (Sidekick.objects s))%nat.

(** A control command: the parse edits the file set and asks the loop to
    continue. *)
Definition control (u : Sidekick.files_update) : Sidekick.turn :=
  {| Sidekick.update := u;
     Sidekick.outcome := Sidekick.CONTINUE;
     Sidekick.interrupted := false |}.

(** The record a synchronisation writes. *)
Definition written (s : Sidekick.state) : Session.record :=
  <["files" := elements (active s)]> (Sidekick.store s).

(** A session started as [sidekick a.py] while the store already lists
    [a.py] and [b.py]. *)
Definition stored_ab : Session.record := {[ "files" := ["a.py"; "b.py"] ]}.

Definition started_with_a : Sidekick.state :=
  Sidekick.init (Sidekick.initial_files ["a.py"] false stored_ab []) true stored_ab.

(** What a recorded call returned in [w]: its error, if it failed. *)
Definition failure (w : world) (ev : event) : option exn :=
  match ev with
  | EvExec cmd =>
      match exec_and_get_output w cmd with
      | Ok _ => None
      | Raise e => Some e
      end
  | EvRead path =>
      match read_text w path with
      | Ok _ => None
      | Raise e => Some e
      end
  end.

(** An outcome that hides no failure and invents none: after a result,
    every call succeeded; after an exception, every call but possibly
    the last succeeded, and the exception is the error of the last call
    or an IndexError of the build itself. *)
Definition faithful {A : Type} (w : world)
    (outcome : result A * list event) : Prop :=
  match outcome with
  | (Ok _, t) => Forall (λ ev, failure w ev = None) t
  | (Raise e, t) =>
      (e = IndexError ∧ Forall (λ ev, failure w ev = None) t) ∨
      ∃ t0 ev, t = t0 ++ [ev] ∧
               Forall (λ ev, failure w ev = None) t0 ∧
               failure w ev = Some e
  end.

(** The status line is that of a deleted path. *)
Definition is_deleted (status : string) : bool :=
  match PyStr.split "009" status with
  | String c _ :: _ => Ascii.eqb c "D"
  | _ => false
  end.

(** A backend whose name-status answer holds a line without a tab. *)
Definition garbled_world : world := {|
  exec_and_get_output := λ cmd,
    if decide (cmd = staged_cmd) then Ok ""
    else if decide (cmd = name_status_cmd "HEAD" None) then
      Ok ("D" +:+ TAB +:+ "c.py" +:+ LF +:+ "fatal: bad revision" +:+ LF)
    else Raise (CalledProcessError cmd);
  read_text := λ path, Raise (OSError path)
|}.

(** A repository in which [old.py] was renamed to [new.py]. *)
Definition renamed_world : world := {|
  exec_and_get_output := λ cmd,
    if decide (cmd = staged_cmd) then Ok ("new.py" +:+ LF)
    else if decide (cmd = name_status_cmd "--cached" None) then
      Ok ("R100" +:+ TAB +:+ "old.py" +:+ TAB +:+ "new.py" +:+ LF)
    else if decide (cmd = diff_cmd "--cached" "new.py") then
      Ok ("similarity index 100%" +:+ LF)
    else Raise (CalledProcessError cmd);
  read_text := λ path, Raise (OSError path)
|}.

(** No line boundary of [str.splitlines] starts anywhere in [s]. *)
Fixpoint unbroken (s : string) : bool :=
  match s with
  | EmptyString => true
  | String _ s' =>
      match PyStr.linebreak_len s with
      | O => unbroken s'
      | S _ => false
      end
  end.

(** [PyStr.linebreak_len] spelled with comparisons of bytes. *)
Definition linebreak_bytes (s : string) : nat :=
  match s with
  | EmptyString => 0
  | String c t =>
      if Ascii.eqb c "010" || Ascii.eqb c "011" || Ascii.eqb c "012" ||
         Ascii.eqb c "028" || Ascii.eqb c "029" || Ascii.eqb c "030" then 1
      else if Ascii.eqb c "013" then
        match t with
        | String d _ => if Ascii.eqb d "010" then 2 else 1
        | EmptyString => 1
        end
      else if Ascii.eqb c "194" then
        match t with
        | String d _ => if Ascii.eqb d "133" then 2 else 0
        | EmptyString => 0
        end
      else if Ascii.eqb c "226" then
        match t with
        | String d (String e _) =>
            if Ascii.eqb d "128" && (Ascii.eqb e "168" || Ascii.eqb e "169")
            then 3 else 0
        | _ => 0
        end
      else 0
  end%nat.

(** No line boundary starts in [line] when [rest] follows it. *)
Fixpoint unbroken_before (rest : string) (line : string) : bool :=
  match line with
  | EmptyString => true
  | String _ line' =>
      match PyStr.linebreak_len (line +:+ rest) with
      | O => unbroken_before rest line'
      | S _ => false
      end
  end.

(** A backend that lists two changed files, staged or not. *)
Definition listing_world : world := {|
  exec_and_get_output := λ cmd,
    if decide (cmd = staged_cmd) then Ok ("a.py" +:+ LF +:+ "dir/b.py" +:+ LF)
    else if decide (cmd = ["git"; "diff"; "HEAD"; "--name-only"]) then
      Ok ("a.py" +:+ LF +:+ "dir/b.py" +:+ LF)
    else Raise (CalledProcessError cmd);
  read_text := λ path, Raise (OSError path)
|}.

(** A provider key that offers the 3.5 models and the small gpt-4. *)
Definition mixed_engines : list string :=
  ["gpt-3.5-turbo"; "gpt-3.5-turbo-16k"; "gpt-4"].

(** Every node below [path], one line each, directories before their
    entries. *)
Fixpoint listing (path : Tree.node) (depth : nat) : string :=
  match path with
  | Tree.File nm _ => Tree.file_line depth nm
  | Tree.Dir nm entries =>
      Tree.dir_line depth nm +:+
      foldr (λ item below, listing item (S depth) +:+ below) "" entries
  end.

(** A directory that hides itself, above an ignore file that cannot be
    opened. *)
Definition pycache : Tree.node :=
  Tree.Dir "__pycache__" [
    Tree.File ".gitignore" ("*" +:+ LF);
    Tree.Dir "sub" [ Tree.Dir ".gitignore" [] ] ].

(** [sep] starts somewhere in [s]. *)
Fixpoint contains (sep s : string) : bool :=
  match s with
  | EmptyString => String.prefix sep ""
  | String _ s' => String.prefix sep s || contains sep s'
  end.

(** A configuration with a router key. *)
Definition router_config : gmap string string :=
  {[ "openrouter_api_key" := "sk-or" ]}.

(** The line of the turn does not ask for the editor. *)
Definition plain (t : Agent.turn) : bool :=
  negb (Agent.asks_for_edit (Tree.strip (Agent.typed t))).

(** The answer of an agent that thinks aloud. *)
Definition chatty : string :=
  "Done: two files" +:+ LF +:+ "Action: none".

(** A model chooser with one threshold. *)
Definition two_models (request_token_size : Z) : option string :=
  if decide (request_token_size ≤ 8192) then Some "gpt-4" else Some "gpt-4-32k".

(** What a run adds to the store: the records written, the last of
    which the store holds, each differing from the store it started
    from in the key ["files"] alone. *)
Definition kept (s final : Sidekick.state) : Prop :=
  ∃ new,
    Sidekick.writes final = Sidekick.writes s ++ new ∧
    Sidekick.store final = default (Sidekick.store s) (last new) ∧
    Forall (λ record, ∀ k, k ≠ "files" → record !! k = Sidekick.store s !! k)
      new.

(** The turn edits the chat's set object and binds no new one. *)
Definition in_place (t : Sidekick.turn) : Prop :=
  ∃ new, Sidekick.update t = Sidekick.InPlace new.

(** The request a pass ran and the model its chain was built for. *)
Definition run_of (a : Models.action) : option (option string * string) :=
  match a with
  | Models.ChainRun built_for task => Some (built_for, task)
  | Models.Notice _ _ => None
  end.

(** The switch a pass announced. *)
Definition notice_of (a : Models.action) : option (option string * Z) :=
  match a with
  | Models.Notice model_name size => Some (model_name, size)
  | Models.ChainRun _ _ => None
  end.

(** The handle and the chain are those of the current model. *)
Definition settled (s : Models.state) : Prop :=
  Models.langchain_model s = Models.current_model_name s ∧
  Models.chain s = Models.current_model_name s.

(** The switches a session announces: one for every request whose model
    differs from the model before it. *)
Fixpoint switches (choose_model : Z → option string)
    (current : option string) (requests : list (string * Z))
    : list (option string * Z) :=
  match requests with
  | [] => []
  | (_, size) :: rest =>
      if bool_decide (choose_model size ≠ current)
      then (choose_model size, size) :: switches choose_model (choose_model size) rest
      else switches choose_model current rest
  end.

(** What a plain request does. *)
Definition answered (edited_input : option string) (t : Agent.turn)
    : list Agent.action :=
  Agent.banner edited_input ++
  Agent.respond t (Some (Tree.strip (Agent.typed t))).

(** The passes that are not skipped. *)
Definition requests (turns : list Agent.turn) : list Agent.turn :=
  filter (λ t, Tree.strip (Agent.typed t) ≠ "") turns.

(** * Properties *)

(** ** Strings *)

Lemma str_app_cons (a : ascii) (s t : string) :
  String a s +:+ t = String a (s +:+ t).
Proof. reflexivity. Qed.


Lemma str_app_assoc (s1 s2 s3 : string) :
  (s1 +:+ s2) +:+ s3 = s1 +:+ (s2 +:+ s3).
Proof.
  induction s1 as [|a s1 IH]; [done|]. rewrite !str_app_cons. by rewrite IH.
Qed.

Lemma str_app_nil_r (s : string) : s +:+ "" = s.
Proof.
  induction s as [|a s IH]; [done|]. rewrite str_app_cons. by rewrite IH.
Qed.


(** ** Model selection *)

Section ModelSelection.

Import Coder.

Lemma first_fit_cons model max_tokens rest engines token_size :
  first_fit ((model, max_tokens) :: rest) engines token_size =
  if decide (fits engines token_size (model, max_tokens)) then Some model
  else first_fit rest engines token_size.
Proof.
  cbn [first_fit]. unfold fits; cbn [fst snd].
  destruct (decide _) as [[Hin Hle]|Hno].
  - rewrite bool_decide_eq_true_2 by done.
    by rewrite (proj2 (Z.leb_le _ _) Hle).
  - destruct (bool_decide_reflect (model ∈ engines)); [|done].
    destruct (Z.leb_spec token_size max_tokens); [|done].
    destruct Hno; done.
Qed.

(** The loop returns the first tier of the table that fits. *)
Lemma first_fit_Some options engines token_size model :
  first_fit options engines token_size = Some model ↔
  ∃ before max_tokens after,
    options = before ++ (model, max_tokens) :: after ∧
    fits engines token_size (model, max_tokens) ∧
    Forall (λ tier, ¬ fits engines token_size tier) before.
Proof.
  induction options as [|[m cap] rest IH].
  - split; [done|]. intros (before & ? & ? & Heq & _).
    by destruct before.
  - rewrite first_fit_cons. destruct (decide _) as [Hfit|Hno].
    + split.
      * intros [= <-]. exists [], cap, rest. split; [done|]. split; [done|constructor].
      * intros (before & cap' & after & Heq & _ & Hall).
        destruct before as [|t before]; simplify_eq/=; [done|].
        by apply Forall_cons in Hall as [? _].
    + rewrite IH. split.
      * intros (before & cap' & after & -> & Hfit & Hall).
        exists ((m, cap) :: before), cap', after.
        split; [done|]. split; [done|by constructor].
      * intros (before & cap' & after & Heq & Hfit & Hall).
        destruct before as [|t before]; simplify_eq/=; [done|].
        apply Forall_cons in Hall as [_ Hall].
        by exists before, cap', after.
Qed.

(** It returns nothing exactly when no tier of the table fits. *)
Lemma first_fit_None options engines token_size :
  first_fit options engines token_size = None ↔
  Forall (λ tier, ¬ fits engines token_size tier) options.
Proof.
  induction options as [|[m cap] rest IH]; [by split|].
  rewrite first_fit_cons, Forall_cons. destruct (decide _) as [Hfit|Hno].
  - split; [done|]. by intros [? _].
  - rewrite IH. split; [by split|by intros [_ ?]].
Qed.

Lemma get_llm_model_name_Some env token_size c model :
  compensate token_size = Ok c →
  first_fit (model_options env) (supported_engines env) c = Some model →
  get_llm_model_name env token_size =
    Ok (Some model, [(INFO, msg_using model c)]).
Proof. unfold get_llm_model_name. by intros -> ->. Qed.


(** Every tier of the gateway table is offered, and the table is in
    ascending order of capacity. *)
Lemma openrouter_first_is_smallest env c before model max_tokens after :
  has_openrouter_key env = true →
  model_options env = before ++ (model, max_tokens) :: after →
  Forall (λ tier, ¬ fits (supported_engines env) c tier) before →
  ∀ tier, tier ∈ model_options env →
          fits (supported_engines env) c tier → max_tokens ≤ tier.2.
Proof.
  unfold model_options, supported_engines. intros -> Heq Hall tier Hin Hfit.
  rewrite Heq in Hin. apply elem_of_app in Hin as [Hin|Hin].
  - rewrite Forall_forall in Hall. by destruct (Hall _ Hin).
  - destruct Hfit as [_ Hle].
    clear Hall Hle. unfold openrouter_model_options in Heq.
    destruct before as [|t0 [|t1 before]]; simplify_eq/=.
    + repeat (apply elem_of_cons in Hin as [->|Hin]); simpl; try lia.
      by apply elem_of_nil in Hin.
    + apply list_elem_of_singleton in Hin as ->. simpl; lia.
    + by destruct before.
Qed.

(** The compensated size on a few inputs, as Python computes
    [int(token_size * 1.05)]. *)
Example compensate_values :
  compensate <$> [0; 1; 3; 20; 100; 7800; 8000; -7; 10 ^ 17] =
  Ok <$> [0; 1; 3; 21; 105; 8190; 8400; -7; 105 * 10 ^ 15].
Proof. reflexivity. Qed.

(** An int beyond the doubles, and a product beyond them, raise. *)
Example compensate_overflow :
  compensate (2 ^ 1024) = Raise OverflowError ∧
  compensate (31 * 2 ^ 1019) = Raise OverflowError.
Proof. split; reflexivity. Qed.

(** C1, as amended: when some tier of the provider mode's table is
    offered and has [max_tokens >= int(r * 1.05)], [get_llm_model_name]
    returns the first such tier in the order the table lists them; in
    gateway mode, whose table ascends, that tier has the least capacity
    among those that fit. *)
Theorem get_llm_model_name_first_fit env token_size c :
  compensate token_size = Ok c →
  (∃ tier, tier ∈ model_options env ∧ fits (supported_engines env) c tier) →
  ∃ before model max_tokens after,
    model_options env = before ++ (model, max_tokens) :: after ∧
    fits (supported_engines env) c (model, max_tokens) ∧
    Forall (λ tier, ¬ fits (supported_engines env) c tier) before ∧
    get_llm_model_name env token_size =
      Ok (Some model, [(INFO, msg_using model c)]) ∧
    (has_openrouter_key env = true → smallest_fitting env c model).
Proof.
  intros Hc (tier & Hin & Hfit).
  destruct (first_fit (model_options env) (supported_engines env) c)
    as [model|] eqn:Hff.
  - pose proof Hff as Hsel.
    apply first_fit_Some in Hsel
      as (before & max_tokens & after & Heq & Hm & Hall).
    exists before, model, max_tokens, after.
    repeat (split; [done|]).
    split; [by apply get_llm_model_name_Some|].
    intros Hgw. exists max_tokens. split.
    { rewrite Heq. apply elem_of_app. right. by left. }
    split; [done|]. by eapply openrouter_first_is_smallest.
  - apply first_fit_None in Hff. rewrite Forall_forall in Hff.
    by destruct (Hff _ Hin).
Qed.

Lemma get_llm_model_name_first_fit_witness :
  ∃ before model max_tokens after,
    model_options gateway_env = before ++ (model, max_tokens) :: after ∧
    fits (supported_engines gateway_env) 8190 (model, max_tokens) ∧
    Forall (λ tier, ¬ fits (supported_engines gateway_env) 8190 tier) before ∧
    get_llm_model_name gateway_env 7800 =
      Ok (Some model, [(INFO, msg_using model 8190)]) ∧
    (has_openrouter_key gateway_env = true →
     smallest_fitting gateway_env 8190 model).
Proof.
  apply (get_llm_model_name_first_fit gateway_env 7800 8190).
  - reflexivity.
  - exists ("openai/gpt-4", 8192). split.
    + left.
    + split; [left | simpl; lia].
Defined.

(** C1 as stated fails in direct mode: with every engine offered and a
    request of 100 tokens, [gpt-4] (8192) is returned although
    [gpt-3.5-turbo] (4096) fits and is smaller. *)
Lemma direct_mode_not_smallest :
  compensate 100 = Ok 105 ∧
  (∃ tier, tier ∈ model_options (direct_env all_engines) ∧
           fits (supported_engines (direct_env all_engines)) 105 tier) ∧
  get_llm_model_name (direct_env all_engines) 100 =
    Ok (Some "gpt-4", [(INFO, "Using gpt-4 for token size 105")]) ∧
  ¬ smallest_fitting (direct_env all_engines) 105 "gpt-4".
Proof.
  split; [reflexivity|].
  assert (Hsmall : ("gpt-3.5-turbo", 4096) ∈ model_options (direct_env all_engines)
                   ∧ fits (supported_engines (direct_env all_engines)) 105
                       ("gpt-3.5-turbo", 4096)).
  { split.
    - do 2 right. left.
    - split; [left | simpl; lia]. }
  split; [by eexists|]. split; [reflexivity|].
  intros (max_tokens & Hin & _ & Hmin).
  destruct Hsmall as [Hin' Hfit'].
  specialize (Hmin _ Hin' Hfit'). simpl in Hmin.
  change (model_options (direct_env all_engines)) with openai_model_options in Hin.
  unfold openai_model_options in Hin.
  repeat (apply elem_of_cons in Hin as [Hin|Hin]; [simplify_eq; lia|]).
  by apply elem_of_nil in Hin.
Qed.






(** C3: the multiplier is the double nearest to 1.05 and is applied
    before the comparison: with tiers of 8192 (modelA) and 32768
    (modelB), both offered, 7800 tokens become 8190 and select modelA,
    8000 tokens become 8400 and select modelB. *)
Theorem compensation_scenarios :
  PyFloat.lit_1_05 =
    SFdiv PyFloat.prec PyFloat.emax
      (S754_finite false 105 0) (S754_finite false 100 0) ∧
  compensate 7800 = Ok 8190 ∧
  compensate 8000 = Ok 8400 ∧
  (∀ engines c,
     first_fit [("modelA", 8192); ("modelB", 32768)] engines c =
     if decide (fits engines c ("modelA", 8192)) then Some "modelA"
     else if decide (fits engines c ("modelB", 32768)) then Some "modelB"
     else None) ∧
  first_fit [("modelA", 8192); ("modelB", 32768)] ["modelA"; "modelB"] 8190
    = Some "modelA" ∧
  first_fit [("modelA", 8192); ("modelB", 32768)] ["modelA"; "modelB"] 8400
    = Some "modelB" ∧
  get_llm_model_name gateway_env 7800 =
    Ok (Some "openai/gpt-4", [(INFO, "Using openai/gpt-4 for token size 8190")]) ∧
  get_llm_model_name gateway_env 8000 =
    Ok (Some "openai/gpt-4-32k",
        [(INFO, "Using openai/gpt-4-32k for token size 8400")]).
Proof.
  split; [reflexivity|]. split; [reflexivity|]. split; [reflexivity|].
  split; [|by repeat split].
  intros engines c. by rewrite !first_fit_cons.
Qed.

End ModelSelection.

(** ** Lines and fields *)

Section Lines.

Import PyStr.

Lemma occurs_app c s1 s2 :
  occurs c (s1 +:+ s2) = occurs c s1 || occurs c s2.
Proof.
  induction s1 as [|a s1 IH]; [done|].
  rewrite str_app_cons. cbn [occurs]. by rewrite IH, orb_assoc.
Qed.

Lemma linebreak_len_lf s : linebreak_len (String "010" s) = 1%nat.
Proof. reflexivity. Qed.

Lemma linebreak_len_0_not_lf c s :
  linebreak_len (String c s) = 0%nat → Ascii.eqb "010" c = false.
Proof.
  intros Hlen. destruct (Ascii.eqb_spec "010" c) as [<-|]; [|done].
  by rewrite linebreak_len_lf in Hlen.
Qed.

(** No line of [splitlines] holds a line feed. *)
Lemma splitlines_from_no_lf s skip line :
  occurs "010" line = false →
  Forall (λ l, occurs "010" l = false) (splitlines_from s skip line).
Proof.
  revert skip line. induction s as [|c s IH]; intros skip line Hline.
  - cbn [splitlines_from]. destruct (String.eqb line ""); by repeat constructor.
  - cbn [splitlines_from]. destruct skip as [|k]; [|by apply IH].
    destruct (linebreak_len (String c s)) as [|k] eqn:Hlen.
    + apply IH. rewrite occurs_app, Hline. cbn [occurs].
      by rewrite (linebreak_len_0_not_lf _ _ Hlen).
    + constructor; [done|]. by apply IH.
Qed.

Lemma splitlines_no_lf s :
  Forall (λ l, occurs "010" l = false) (splitlines s).
Proof. by apply splitlines_from_no_lf. Qed.

Lemma splitlines_from_nonempty s skip line :
  line ≠ "" → splitlines_from s skip line ≠ [].
Proof.
  revert skip line. induction s as [|c s IH]; intros skip line Hline.
  - cbn [splitlines_from]. destruct (String.eqb_spec line ""); done.
  - cbn [splitlines_from]. destruct skip as [|k]; [|by apply IH].
    destruct (linebreak_len (String c s)); [|done].
    apply IH. by destruct line.
Qed.

(** [staged_files] is an empty list exactly when the output is empty. *)
Lemma splitlines_nil s : splitlines s = [] ↔ s = "".
Proof.
  split; [|by intros ->]. destruct s as [|c s]; [done|].
  unfold splitlines. cbn [splitlines_from].
  destruct (linebreak_len (String c s)); [|done].
  intros H. by apply splitlines_from_nonempty in H.
Qed.

Lemma split_nonempty sep s : split sep s ≠ [].
Proof.
  destruct s as [|c s]; [done|]. cbn [split].
  destruct (Ascii.eqb c sep); [done|]. by destruct (split sep s).
Qed.

(** A field of a line holds no character the line does not hold. *)
Lemma split_no_occurrence sep c s :
  occurs c s = false → Forall (λ p, occurs c p = false) (split sep s).
Proof.
  induction s as [|d s IH]; intros Hs.
  - by repeat constructor.
  - cbn [occurs] in Hs. apply orb_false_iff in Hs as [Hd Hs].
    specialize (IH Hs). cbn [split].
    destruct (Ascii.eqb d sep).
    + by constructor.
    + destruct (split sep s) as [|p ps] eqn:Hsp.
      * repeat constructor. cbn [occurs]. by rewrite Hd.
      * apply Forall_cons in IH as [Hp Hps].
        constructor; [|done]. cbn [occurs]. by rewrite Hd, Hp.
Qed.

Lemma join_cons sep p ps :
  join sep (p :: ps) =
  p +:+ match ps with [] => "" | _ :: _ => sep +:+ join sep ps end.
Proof. destruct ps; cbn [join]; [by rewrite str_app_nil_r|done]. Qed.

(** The text joined from a list ends with the text joined from any
    non-empty tail of it. *)
Lemma join_app_r sep d1 l :
  l ≠ [] → ∃ before, join sep (d1 ++ l) = before +:+ join sep l.
Proof.
  intros Hl. induction d1 as [|x d1 [before IH]].
  - by exists "".
  - exists (x +:+ sep +:+ before).
    rewrite <-app_comm_cons, join_cons.
    destruct (d1 ++ l) as [|y ys] eqn:Happ.
    { apply app_eq_nil in Happ as [_ ?]. done. }
    by rewrite IH, !str_app_assoc.
Qed.

Lemma join_embeds_pair sep d1 x y d2 :
  embeds (join sep (d1 ++ [x; y] ++ d2)) (x +:+ sep +:+ y).
Proof.
  destruct (join_app_r sep d1 ([x; y] ++ d2)) as [before Heq]; [done|].
  exists before, (match d2 with [] => "" | _ :: _ => sep +:+ join sep d2 end).
  rewrite Heq. f_equal. cbn [app].
  rewrite join_cons, join_cons. by rewrite !str_app_assoc.
Qed.

Lemma join_embeds_one sep d1 x d2 :
  embeds (join sep (d1 ++ [x] ++ d2)) x.
Proof.
  destruct (join_app_r sep d1 ([x] ++ d2)) as [before Heq]; [done|].
  exists before, (match d2 with [] => "" | _ :: _ => sep +:+ join sep d2 end).
  rewrite Heq. f_equal. cbn [app]. by rewrite join_cons.
Qed.

End Lines.

(** ** Git context *)

Section GitContext.

Import PyStr Git.

Lemma io_bind_run {A B : Type} (m : io A) (k : A → io B) (w : world) :
  (m ≫= k) w =
  match m w with
  | (Ok a, t1) => let '(r, t2) := k a w in (r, t1 ++ t2)
  | (Raise e, t1) => (Raise e, t1)
  end.
Proof. reflexivity. Qed.

Lemma diff_loop_cons base status rest w :
  diff_loop base (status :: rest) w =
  match diff_entry base status w with
  | (Ok d, t) =>
      match diff_loop base rest w with
      | (Ok ds, t') => (Ok (d ++ ds), t ++ t')
      | (Raise e, t') => (Raise e, t ++ t')
      end
  | (Raise e, t) => (Raise e, t)
  end.
Proof.
  cbn [diff_loop]. rewrite io_bind_run.
  destruct (diff_entry base status w) as [[d|e] t]; [|done].
  rewrite io_bind_run.
  destruct (diff_loop base rest w) as [[ds|e] t']; [|done].
  unfold mret, io_ret. by rewrite app_nil_r.
Qed.

(** The loop handles each status line on its own: what one line
    contributes sits between what the lines before and after it do. *)
Lemma diff_loop_middle base pre status post w entry calls :
  diff_entry base status w = (Ok entry, calls) →
  diff_loop base (pre ++ status :: post) w =
  between (diff_loop base pre w) entry calls (diff_loop base post w).
Proof.
  intros Hentry. induction pre as [|s0 pre IH].
  - cbn [app]. rewrite diff_loop_cons, Hentry. cbn [diff_loop between].
    unfold between, mret, io_ret.
    by destruct (diff_loop base post w) as [[d2|e] t2].
  - rewrite <-app_comm_cons, !diff_loop_cons, IH.
    destruct (diff_entry base s0 w) as [[d0|e] t0]; [|done].
    destruct (diff_loop base pre w) as [[d1|e] t1]; [|done].
    cbn [between].
    destruct (diff_loop base post w) as [[d2|e] t2];
      by rewrite <-?app_assoc.
Qed.

(** Without a commit: the two queries, then the loop over the lines of
    the second answer, all against one base. *)
Lemma git_diff_context_no_commit w commit files staged_out out :
  truthy commit = None →
  exec_and_get_output w staged_cmd = Ok staged_out →
  exec_and_get_output w
    (name_status_cmd (diff_base (splitlines staged_out)) files) = Ok out →
  git_diff_context commit files w =
  finish (diff_base (splitlines staged_out)) files
    (diff_loop (diff_base (splitlines staged_out)) (splitlines out) w).
Proof.
  intros Hcommit Hstaged Hstatus.
  unfold git_diff_context, git_staged_files. rewrite Hcommit.
  rewrite !io_bind_run. unfold exec at 1. fold staged_cmd. rewrite Hstaged.
  unfold mret at 1, io_ret. rewrite !io_bind_run.
  unfold exec at 1. unfold name_status_cmd in Hstatus. rewrite Hstatus.
  rewrite io_bind_run. unfold finish, name_status_cmd.
  destruct (diff_loop _ _ w) as [[diffs|e] t]; [|done].
  unfold mret, io_ret. cbn [app]. by rewrite app_nil_r.
Qed.

Ltac run_entry :=
  cbv [mbind io_bind mret io_ret lift read exec index first_char
       lookup list_lookup Ascii.eqb Bool.eqb app base_git_diff diff_cmd].


Lemma diff_entry_deleted base status w code file_name more :
  split "009" status = code :: file_name :: more →
  first_char code = Ok "D"%char →
  diff_entry base status w = (Ok ["## File deleted: " +:+ file_name], []).
Proof.
  intros Hsplit Hcode. unfold diff_entry. rewrite Hsplit.
  destruct code as [|c code]; simplify_eq/=. by run_entry.
Qed.




(** The context built for [staged_world], and the calls made for it. *)
Example staged_world_context :
  git_diff_context None None staged_world =
  (Ok ("## File changed: a.py" +:+ LF +:+
       "@@ -1,3 +1,3 @@" +:+ LF +:+ LF +:+
       "## New file added: b.py" +:+ LF +:+
       "print(1)" +:+ LF +:+ LF +:+
       "## File deleted: c.py"),
   [EvExec staged_cmd; EvExec (name_status_cmd "--cached" None);
    EvExec (diff_cmd "--cached" "a.py"); EvRead "b.py"]).
Proof. reflexivity. Qed.




(** C10: without a commit, when the backend lists no changed path (its
    name-status answer is empty, with or without a files argument),
    the context is the empty string and nothing is raised. *)
Theorem empty_status_gives_empty_context w commit files staged_out :
  truthy commit = None →
  exec_and_get_output w staged_cmd = Ok staged_out →
  exec_and_get_output w
    (name_status_cmd (diff_base (splitlines staged_out)) files) = Ok "" →
  git_diff_context commit files w =
    (Ok "",
     [EvExec staged_cmd;
      EvExec (name_status_cmd (diff_base (splitlines staged_out)) files)]).
Proof.
  intros Hcommit Hstaged Hstatus.
  by rewrite (git_diff_context_no_commit _ _ _ _ _ Hcommit Hstaged Hstatus).
Qed.

Lemma empty_status_gives_empty_context_witness :
  git_diff_context None None clean_world =
    (Ok "",
     [EvExec staged_cmd;
      EvExec (name_status_cmd (diff_base (splitlines "")) None)]).
Proof.
  apply (empty_status_gives_empty_context clean_world None None "");
    reflexivity.
Defined.



(** C6: for a status line whose code is D, the build makes no call at
    all for the line (no file is read); the entry is the deletion
    marker alone, which holds no line feed, and the returned text
    holds it. *)
Theorem deleted_file_marked w commit files staged_out out pre status post
    code file_name more :
  truthy commit = None →
  exec_and_get_output w staged_cmd = Ok staged_out →
  exec_and_get_output w
    (name_status_cmd (diff_base (splitlines staged_out)) files) = Ok out →
  splitlines out = pre ++ status :: post →
  split "009" status = code :: file_name :: more →
  first_char code = Ok "D"%char →
  git_diff_context commit files w =
    finish (diff_base (splitlines staged_out)) files
      (between (diff_loop (diff_base (splitlines staged_out)) pre w)
         ["## File deleted: " +:+ file_name] []
         (diff_loop (diff_base (splitlines staged_out)) post w)) ∧
  occurs "010" ("## File deleted: " +:+ file_name) = false ∧
  (∀ text t, git_diff_context commit files w = (Ok text, t) →
     embeds text ("## File deleted: " +:+ file_name)).
Proof.
  intros Hcommit Hstaged Hstatus Hlines Hsplit Hcode.
  rewrite (git_diff_context_no_commit _ _ _ _ _ Hcommit Hstaged Hstatus).
  rewrite Hlines.
  rewrite (diff_loop_middle _ _ _ _ _ _ _
             (diff_entry_deleted _ _ _ _ _ _ Hsplit Hcode)).
  split; [done|]. split.
  - pose proof (splitlines_no_lf out) as Hno. rewrite Hlines in Hno.
    apply Forall_app in Hno as [_ Hno]. apply Forall_cons in Hno as [Hno _].
    apply (split_no_occurrence "009") in Hno. rewrite Hsplit in Hno.
    apply Forall_cons in Hno as [_ Hno]. apply Forall_cons in Hno as [Hno _].
    by rewrite occurs_app, Hno.
  - intros text t.
    destruct (diff_loop _ pre w) as [[d1|e] t1]; [|done].
    destruct (diff_loop _ post w) as [[d2|e] t2]; [|done].
    cbn [between finish]. intros [= <- _]. apply join_embeds_one.
Qed.

Lemma deleted_file_marked_witness :
  git_diff_context None None staged_world =
    finish "--cached" None
      (between
         (diff_loop "--cached"
            ["M" +:+ TAB +:+ "a.py"; "A" +:+ TAB +:+ "b.py"]
            staged_world)
         ["## File deleted: " +:+ "c.py"] []
         (diff_loop "--cached" [] staged_world)) ∧
  occurs "010" ("## File deleted: " +:+ "c.py") = false ∧
  (∀ text t, git_diff_context None None staged_world = (Ok text, t) →
     embeds text ("## File deleted: " +:+ "c.py")).
Proof.
  apply (deleted_file_marked staged_world None None
           ("a.py" +:+ LF +:+ "b.py" +:+ LF +:+ "c.py" +:+ LF)
           ("M" +:+ TAB +:+ "a.py" +:+ LF +:+
            "A" +:+ TAB +:+ "b.py" +:+ LF +:+
            "D" +:+ TAB +:+ "c.py" +:+ LF)
           ["M" +:+ TAB +:+ "a.py"; "A" +:+ TAB +:+ "b.py"]
           ("D" +:+ TAB +:+ "c.py") [] "D" "c.py" []); reflexivity.
Defined.



End GitContext.

(** ** Directory structure *)

Section DirectoryStructure.

Import Tree.

Variable fnmatch : string → string → bool.

(** Induction over a tree and, at a directory, over all its entries. *)
Lemma node_rect_entries (P : node → Prop) :
  (∀ nm content, P (File nm content)) →
  (∀ nm entries, Forall P entries → P (Dir nm entries)) →
  ∀ path, P path.
Proof.
  intros HFile HDir. fix IH 1. intros [nm content|nm entries].
  - apply HFile.
  - apply HDir. induction entries as [|item more IHmore]; constructor.
    + apply IH.
    + apply IHmore.
Qed.

Lemma st_bind_run {A B : Type} (m : st A) (k : A → st B) (h : heap) :
  (m ≫= k) h =
  match m h with
  | (Ok a, h') => k a h'
  | (Raise e, h') => (Raise e, h')
  end.
Proof. reflexivity. Qed.

Lemma result_bind_Ok {A B : Type} (a : A) (k : A → result B) :
  (Ok a ≫= k) = k a.
Proof. reflexivity. Qed.

(** The call starts from a fresh list holding the inherited patterns. *)
Lemma copy_or_new_run ignore_patterns h :
  copy_or_new ignore_patterns h =
  (Ok (length h), h ++ [inherited ignore_patterns h]).
Proof.
  unfold copy_or_new, inherited. do 2 f_equal.
  destruct ignore_patterns as [l|]; [|done].
  by destruct (h !! l) as [[|p ps]|].
Qed.

(** Extending the fresh list touches no other object. *)
Lemma extend_fresh h patterns new :
  extend (length h) new (h ++ [patterns]) = (Ok tt, h ++ [patterns ++ new]).
Proof.
  unfold extend. f_equal.
  rewrite alter_app_r_alt by done. by rewrite Nat.sub_diag.
Qed.

Lemma read_ignore_file use_gitignore path h patterns :
  read_gitignore use_gitignore path (length h) (h ++ [patterns]) =
  match own_patterns use_gitignore path with
  | Ok own => (Ok tt, h ++ [patterns ++ own])
  | Raise e => (Raise e, h ++ [patterns])
  end.
Proof.
  unfold read_gitignore, own_patterns. destruct use_gitignore.
  - destruct (gitignore_file path); [|by rewrite extend_fresh|done].
    unfold mret, st_ret. by rewrite app_nil_r.
  - unfold mret, st_ret. by rewrite app_nil_r.
Qed.

Lemma deref_fresh h patterns k :
  deref (length h) ((h ++ [patterns]) ++ k) = (Ok patterns, (h ++ [patterns]) ++ k).
Proof.
  unfold deref. rewrite <-app_assoc. cbn [app].
  by rewrite list_lookup_middle.
Qed.

Lemma accumulate_cons {M : Type → Type} `{!MRet M, !MBind M} {A : Type}
    (f : A → M string) item more structure :
  accumulate f (item :: more) structure =
  (s ← f item; accumulate f more (structure +:+ s)).
Proof. reflexivity. Qed.

(** While the entries of a directory are rendered one after the other
    with a reference to the directory's list, each is rendered as if
    it had received the list by value, and the objects only grow in
    number. *)
Lemma accumulate_by_value items l patterns use_gitignore indent :
  Forall (λ item, ∀ ignore_patterns use_gitignore indent h,
            ∃ k, generate_directory_structure fnmatch item ignore_patterns
                   use_gitignore indent h =
                 (render fnmatch item (inherited ignore_patterns h)
                    use_gitignore indent, h ++ k)) items →
  ∀ h structure,
    h !! l = Some patterns →
    ∃ k,
      accumulate
        (λ item, generate_directory_structure fnmatch item (Some l)
                   use_gitignore indent) items structure h =
      (accumulate (λ item, render fnmatch item patterns use_gitignore indent)
         items structure, h ++ k).
Proof.
  induction 1 as [|item more Hitem _ IH]; intros h structure Hl.
  - exists []. cbn [accumulate]. unfold mret, st_ret, result_ret.
    by rewrite app_nil_r.
  - rewrite !accumulate_cons, st_bind_run.
    destruct (Hitem (Some l) use_gitignore indent h) as [k1 ->].
    cbn [inherited]. rewrite Hl. cbn [from_option]. unfold id.
    unfold mbind, result_bind.
    destruct (render fnmatch item patterns use_gitignore indent) as [s|e].
    + destruct (IH (h ++ k1) (structure +:+ s)) as [k2 ->].
      { by apply lookup_app_l_Some. }
      exists (k1 ++ k2). by rewrite app_assoc.
    + by exists k1.
Qed.

Lemma generate_directory_structure_by_value path :
  ∀ ignore_patterns use_gitignore indent h,
    ∃ k, generate_directory_structure fnmatch path ignore_patterns
           use_gitignore indent h =
         (render fnmatch path (inherited ignore_patterns h)
            use_gitignore indent, h ++ k).
Proof.
  induction path as [nm content|nm entries IH] using node_rect_entries;
    intros ignore_patterns use_gitignore indent h.
  - cbn [generate_directory_structure render].
    rewrite st_bind_run, copy_or_new_run, st_bind_run, read_ignore_file.
    destruct (own_patterns use_gitignore (File nm content)) as [own|e];
      [|by eexists].
    rewrite result_bind_Ok, st_bind_run.
    rewrite <-(app_nil_r (h ++ [_])), deref_fresh, app_nil_r.
    exists [inherited ignore_patterns h ++ own].
    by destruct (ignored fnmatch nm _).
  - cbn [generate_directory_structure render].
    rewrite st_bind_run, copy_or_new_run, st_bind_run, read_ignore_file.
    destruct (own_patterns use_gitignore (Dir nm entries)) as [own|e];
      [|by eexists].
    rewrite result_bind_Ok, st_bind_run.
    rewrite <-(app_nil_r (h ++ [_])), deref_fresh, app_nil_r.
    destruct (ignored fnmatch nm _); [by eexists|].
    destruct (accumulate_by_value entries (length h)
                (inherited ignore_patterns h ++ own) use_gitignore (S indent)
                IH (h ++ [inherited ignore_patterns h ++ own])
                (dir_line indent nm)) as [k ->].
    { by apply list_lookup_middle. }
    exists ([inherited ignore_patterns h ++ own] ++ k).
    by rewrite app_assoc.
Qed.

(** The loop over [before ++ item :: after] renders [item] between the
    two runs of entries. *)
Lemma accumulate_app {A : Type} (f : A → result string) before after structure :
  accumulate f (before ++ after) structure =
  (s ← accumulate f before structure; accumulate f after s).
Proof.
  revert structure. induction before as [|x before IH]; intros structure.
  - done.
  - cbn [app]. rewrite !accumulate_cons. unfold mbind, result_bind.
    destruct (f x) as [s|e]; [|done]. apply IH.
Qed.

(** C8: the rendering with a shared, mutable pattern list is the
    rendering with the list passed by value.  The call returns what
    [render] returns from the patterns behind the caller's reference;
    every list object that existed before the call, the caller's and
    those of all ancestors included, holds the same patterns after it
    (nothing leaks upward); and each entry of a directory is rendered
    from the directory's own patterns alone, whatever its siblings
    hold (nothing leaks sideways). *)
Theorem ignore_patterns_do_not_leak path ignore_patterns use_gitignore
    indent h :
  (generate_directory_structure fnmatch path ignore_patterns
     use_gitignore indent h).1 =
    render fnmatch path (inherited ignore_patterns h) use_gitignore indent ∧
  h `prefix_of`
    (generate_directory_structure fnmatch path ignore_patterns
       use_gitignore indent h).2 ∧
  (∀ l patterns,
     h !! l = Some patterns →
     (generate_directory_structure fnmatch path ignore_patterns
        use_gitignore indent h).2 !! l = Some patterns) ∧
  (∀ nm before item after own,
     path = Dir nm (before ++ item :: after) →
     own_patterns use_gitignore path = Ok own →
     ignored fnmatch nm (inherited ignore_patterns h ++ own) = false →
     (generate_directory_structure fnmatch path ignore_patterns
        use_gitignore indent h).1 =
     (s1 ← accumulate
             (λ sibling, render fnmatch sibling
                           (inherited ignore_patterns h ++ own)
                           use_gitignore (S indent))
             before (dir_line indent nm);
      s ← render fnmatch item (inherited ignore_patterns h ++ own)
            use_gitignore (S indent);
      accumulate
        (λ sibling, render fnmatch sibling
                      (inherited ignore_patterns h ++ own)
                      use_gitignore (S indent))
        after (s1 +:+ s))).
Proof.
  destruct (generate_directory_structure_by_value path ignore_patterns
              use_gitignore indent h) as [k ->].
  cbn [fst snd]. split; [done|]. split; [by exists k|].
  split; [intros l patterns Hl; by apply lookup_app_l_Some|].
  intros nm before item after own -> Hown Hshown.
  cbn [render]. rewrite Hown, result_bind_Ok, Hshown.
  rewrite accumulate_app. f_equal.
Qed.

End DirectoryStructure.

Lemma ignore_patterns_do_not_leak_witness :
  (Tree.generate_directory_structure Tree.fnmatch_basic project None true 0 []).1 =
    Tree.render Tree.fnmatch_basic project (inherited None []) true 0 ∧
  [] `prefix_of`
    (Tree.generate_directory_structure Tree.fnmatch_basic project None true 0 []).2.
Proof.
  split;
    apply (ignore_patterns_do_not_leak Tree.fnmatch_basic project None true 0%nat []).
Defined.

(** In [project] the pattern [x*] of [a/.gitignore] hides [a/x1] and
    leaves [b/x2] in place, while [*.pyc] and [build] of the top level
    reach both sub-directories. *)
Example project_structure :
  (Tree.generate_directory_structure Tree.fnmatch_basic project None true 0 []).1 =
  Ok ("- [Directory] proj" +:+ LF +:+
      "  - [File] .gitignore" +:+ LF +:+
      "  - [Directory] a" +:+ LF +:+
      "    - [File] .gitignore" +:+ LF +:+
      "    - [File] y1" +:+ LF +:+
      "  - [Directory] b" +:+ LF +:+
      "    - [File] x2" +:+ LF).
Proof. reflexivity. Qed.

(** ** Session store *)

Section SessionStore.

Import Sidekick.

Lemma active_parse u s :
  well_formed s → active (parse u s) = new_files u.
Proof.
  intros [Hchat _]. unfold active, deref. destruct u as [new|new]; cbn.
  - by rewrite list_lookup_insert_eq.
  - by rewrite list_lookup_middle.
Qed.

Lemma well_formed_parse u s : well_formed s → well_formed (parse u s).
Proof.
  intros [Hchat Hcompleter]. unfold well_formed.
  destruct u as [new|new]; cbn.
  - by rewrite length_insert.
  - rewrite length_app. cbn. lia.
Qed.

Lemma well_formed_sync s : well_formed s → well_formed (sync s).
Proof.
  intros [Hchat Hcompleter]. unfold sync. by case_bool_decide.
Qed.

Lemma well_formed_init files chat_copies store :
  well_formed (init files chat_copies store).
Proof. unfold well_formed. destruct chat_copies; cbn; lia. Qed.

(** After a synchronisation both references hold the active set. *)
Lemma synced_sync s : synced (sync s) = active (sync s).
Proof.
  unfold sync. by case_bool_decide as Hne.
Qed.

Lemma active_sync s : active (sync s) = active s.
Proof. unfold sync. by case_bool_decide. Qed.

(** A parse that leaves the set [F] in place, after the completer was
    synchronised with [F], leaves the completer with [F]. *)
Lemma synced_parse u s :
  well_formed s → synced s = active s → new_files u = active s →
  synced (parse u s) = active s.
Proof.
  intros [Hchat Hcompleter] Hsynced Hnew.
  unfold synced, active, deref in *. destruct u as [new|new]; cbn in *.
  - destruct (decide (chat_files s = completer_files s)) as [Heq|Hne].
    + by rewrite <-Heq, list_lookup_insert_eq.
    + by rewrite list_lookup_insert_ne.
  - by rewrite lookup_app_l.
Qed.

Lemma writes_sync s :
  writes (sync s) =
  writes s ++ (if bool_decide (synced s ≠ active s) then [written s] else []).
Proof.
  unfold sync, synced, active. case_bool_decide; [done|].
  by rewrite app_nil_r.
Qed.

Lemma store_sync s :
  store (sync s) =
  if bool_decide (synced s ≠ active s) then written s else store s.
Proof. unfold sync, synced, active. by case_bool_decide. Qed.

Lemma persisted_written s : persisted (written s) = active s.
Proof.
  unfold persisted, written. rewrite lookup_insert_eq. cbn.
  apply list_to_set_elements_L.
Qed.

Lemma loop_single request t s :
  loop request [t] s =
  match outcome t with
  | BREAK => parse (update t) s
  | _ => sync (parse (update t) s)
  end.
Proof.
  cbn [loop]. destruct (outcome t); [done..|].
  by destruct (interrupted t), request.
Qed.

(** C9, as amended: the loop writes the Session Store in a turn only
    when the turn's input is not answered with BREAK and the active
    file set then differs from the file set the completer holds at that
    moment, not from the set the store lists; what is written is then
    one record, the stored record with the active set under
    ["files"].  In particular, of two consecutive control commands
    that both leave the set [F] the second writes nothing, so the
    store is written at most once, and a record written lists [F]. *)
Theorem session_written_on_change request s :
  well_formed s →
  (∀ t,
     writes (loop request [t] s) = writes s ∨
     (outcome t ≠ BREAK ∧
      synced (parse (update t) s) ≠ active (parse (update t) s) ∧
      writes (loop request [t] s) =
        writes s ++
        [<["files" := elements (active (parse (update t) s))]> (store s)])) ∧
  (∀ u1 u2 F,
     new_files u1 = F → new_files u2 = F →
     writes (loop request [control u1; control u2] s) =
       writes (loop request [control u1] s) ∧
     (writes (loop request [control u1] s) = writes s ∨
      writes (loop request [control u1] s) =
        writes s ++ [<["files" := elements F]> (store s)]) ∧
     active (loop request [control u1; control u2] s) = F ∧
     persisted (<["files" := elements F]> (store s)) = F).
Proof.
  intros Hwf. split.
  - intros t. rewrite loop_single.
    assert (Hparse : writes (parse (update t) s) = writes s ∧
                     store (parse (update t) s) = store s).
    { by destruct (update t). }
    destruct Hparse as [Hwrites Hstore].
    assert (Hsync : writes (sync (parse (update t) s)) = writes s ∨
              (synced (parse (update t) s) ≠ active (parse (update t) s) ∧
               writes (sync (parse (update t) s)) =
                 writes s ++
                 [<["files" := elements (active (parse (update t) s))]>
                    (store s)])).
    { rewrite writes_sync, Hwrites. unfold written. rewrite Hstore.
      case_bool_decide as Hne; [by right|]. left. apply app_nil_r. }
    destruct (outcome t); [by left|..].
    all: destruct Hsync as [Hsame|[Hne Hnew]]; [by left|by right].
  - intros u1 u2 F Hu1 Hu2.
    pose proof (well_formed_sync _ (well_formed_parse u1 _ Hwf)) as Hwf1.
    assert (Hactive1 : active (sync (parse u1 s)) = F).
    { by rewrite active_sync, (active_parse _ _ Hwf). }
    assert (Hsynced1 : synced (sync (parse u1 s)) = active (sync (parse u1 s))).
    { apply synced_sync. }
    assert (Hu2' : new_files u2 = active (sync (parse u1 s))) by congruence.
    pose proof (synced_parse u2 _ Hwf1 Hsynced1 Hu2') as Hsynced2.
    pose proof (active_parse u2 _ Hwf1) as Hactive2.
    cbn [loop control outcome update].
    split; [|split; [|split]].
    + rewrite writes_sync.
      rewrite bool_decide_eq_false_2 by (intros Hne; apply Hne; congruence).
      rewrite app_nil_r. by destruct u2.
    + rewrite writes_sync. unfold written.
      rewrite (active_parse _ _ Hwf), Hu1.
      assert (Hparse : writes (parse u1 s) = writes s ∧
                       store (parse u1 s) = store s) by by destruct u1.
      destruct Hparse as [-> ->].
      case_bool_decide; [by right|]. left. apply app_nil_r.
    + rewrite active_sync. congruence.
    + unfold persisted. rewrite lookup_insert_eq. cbn.
      apply list_to_set_elements_L.
Qed.

Lemma session_written_on_change_witness :
  (∀ t,
     writes (loop false [t] started_with_a) = writes started_with_a ∨
     (outcome t ≠ BREAK ∧
      synced (parse (update t) started_with_a) ≠
        active (parse (update t) started_with_a) ∧
      writes (loop false [t] started_with_a) =
        writes started_with_a ++
        [<["files" := elements (active (parse (update t) started_with_a))]>
           (store started_with_a)])) ∧
  (∀ u1 u2 F,
     new_files u1 = F → new_files u2 = F →
     writes (loop false [control u1; control u2] started_with_a) =
       writes (loop false [control u1] started_with_a) ∧
     (writes (loop false [control u1] started_with_a) =
        writes started_with_a ∨
      writes (loop false [control u1] started_with_a) =
        writes started_with_a ++
        [<["files" := elements F]> (store started_with_a)]) ∧
     active (loop false [control u1; control u2] started_with_a) = F ∧
     persisted (<["files" := elements F]> (store started_with_a)) = F).
Proof.
  apply (session_written_on_change false started_with_a).
  split; cbn; lia.
Defined.

(** C9 as stated fails: started as [sidekick a.py] while the store
    lists [a.py] and [b.py], a command that adds [b.py] makes the
    active set equal to the persisted set, and the store is written
    all the same. *)
Lemma session_rewritten_with_persisted_set :
  writes started_with_a = [] ∧
  active (loop false [control (InPlace {[ "a.py"; "b.py" ]})] started_with_a) =
    persisted (store started_with_a) ∧
  writes (loop false [control (InPlace {[ "a.py"; "b.py" ]})] started_with_a) =
    [<["files" := elements ({[ "a.py"; "b.py" ]} : gset string)]>
       (store started_with_a)].
Proof. split; [done|]. split; by vm_compute. Qed.

End SessionStore.

(** * Further properties *)

(** ** Git context, continued *)

Section GitContextMore.

Import PyStr Git GitFiles.

Lemma faithful_ret {A : Type} w (a : A) : faithful w ((mret a : io A) w).
Proof. constructor. Qed.

Lemma faithful_bind {A B : Type} w (m : io A) (k : A → io B) :
  faithful w (m w) → (∀ a, faithful w (k a w)) →
  faithful w ((m ≫= k) w).
Proof.
  intros Hm Hk. rewrite io_bind_run.
  destruct (m w) as [[a|e] t1]; [|done].
  specialize (Hk a). destruct (k a w) as [[b|e] t2]; cbn in *.
  - by apply Forall_app.
  - destruct Hk as [[-> Hall]|(t0 & ev & -> & Hall & Hev)].
    + left. split; [done|]. by apply Forall_app.
    + right. exists (t1 ++ t0), ev. rewrite app_assoc.
      split; [done|]. split; [by apply Forall_app|done].
Qed.

Lemma faithful_index {A : Type} w (xs : list A) i :
  faithful w (lift (index xs i) w).
Proof.
  unfold lift, index. destruct (xs !! i); cbn; [constructor|].
  left. split; [done|constructor].
Qed.

Lemma faithful_first_char w s : faithful w (lift (first_char s) w).
Proof.
  unfold lift. destruct s; cbn; [|constructor].
  left. split; [done|constructor].
Qed.

Lemma faithful_exec w cmd : faithful w (exec cmd w).
Proof.
  unfold exec. destruct (exec_and_get_output w cmd) as [out|e] eqn:Hcmd; cbn.
  - repeat constructor. cbn. by rewrite Hcmd.
  - right. exists [], (EvExec cmd). repeat split; [constructor|].
    cbn. by rewrite Hcmd.
Qed.

Lemma faithful_read w path : faithful w (read path w).
Proof.
  unfold read. destruct (read_text w path) as [out|e] eqn:Hread; cbn.
  - repeat constructor. cbn. by rewrite Hread.
  - right. exists [], (EvRead path). repeat split; [constructor|].
    cbn. by rewrite Hread.
Qed.

Lemma faithful_diff_entry w base status : faithful w (diff_entry base status w).
Proof.
  unfold diff_entry.
  apply faithful_bind; [apply faithful_index|]. intros part0.
  apply faithful_bind; [apply faithful_first_char|]. intros c.
  repeat case_match;
    repeat first
      [ apply faithful_ret
      | apply faithful_bind;
          [first [apply faithful_index|apply faithful_exec|apply faithful_read]
          |intros ?] ].
Qed.

Lemma faithful_diff_loop w base file_status :
  faithful w (diff_loop base file_status w).
Proof.
  induction file_status as [|status rest IH]; [apply faithful_ret|].
  cbn [diff_loop].
  apply faithful_bind; [apply faithful_diff_entry|]. intros d.
  apply faithful_bind; [done|]. intros ds. apply faithful_ret.
Qed.

(** X1: [git_diff_context] hides no failure and invents none.  When it
    returns a text, every backend call and file read it made succeeded;
    when it raises, every call before the last succeeded and the
    exception is the error of the last call, or it is the IndexError of
    a status line that lacks a field. *)
Theorem git_diff_context_faithful w commit files :
  faithful w (git_diff_context commit files w).
Proof.
  unfold git_diff_context. destruct (truthy commit) as [c|].
  - apply faithful_exec.
  - unfold git_staged_files.
    apply faithful_bind.
    { apply faithful_bind; [apply faithful_exec|]. intros out.
      apply faithful_ret. }
    intros staged_files.
    apply faithful_bind; [apply faithful_exec|]. intros out.
    apply faithful_bind; [apply faithful_diff_loop|]. intros diffs.
    apply faithful_ret.
Qed.

(** What the build is when both queries succeed. *)
Lemma git_diff_context_Ok_inv w commit files text t :
  truthy commit = None →
  git_diff_context commit files w = (Ok text, t) →
  ∃ staged_out out,
    exec_and_get_output w staged_cmd = Ok staged_out ∧
    exec_and_get_output w
      (name_status_cmd (diff_base (splitlines staged_out)) files) = Ok out.
Proof.
  intros Hcommit. unfold git_diff_context, git_staged_files.
  rewrite Hcommit, !io_bind_run. unfold exec at 1. fold staged_cmd.
  destruct (exec_and_get_output w staged_cmd) as [staged_out|e] eqn:Hstaged;
    [|done].
  unfold mret at 1, io_ret. rewrite !io_bind_run. unfold exec at 1.
  fold (name_status_cmd (diff_base (splitlines staged_out)) files).
  destruct (exec_and_get_output w (name_status_cmd _ files)) as [out|e]
    eqn:Hstatus; [|done].
  intros _. by exists staged_out, out.
Qed.

Lemma diff_entry_renamed base status w code old_file_name new_file_name more d :
  split "009" status = code :: old_file_name :: new_file_name :: more →
  first_char code = Ok "R"%char →
  exec_and_get_output w (diff_cmd base new_file_name) = Ok d →
  diff_entry base status w =
    (Ok ["## File renamed: " +:+ old_file_name +:+ " -> " +:+ new_file_name; d],
     [EvExec (diff_cmd base new_file_name)]).
Proof.
  intros Hsplit Hcode Hexec. unfold diff_entry. rewrite Hsplit.
  destruct code as [|c code]; simplify_eq/=.
  cbv [mbind io_bind mret io_ret lift read exec index first_char
       lookup list_lookup Ascii.eqb Bool.eqb app base_git_diff].
  unfold diff_cmd in Hexec. by rewrite Hexec.
Qed.

(** X2: for a status line whose code is R, the build makes one backend
    call, the unified diff of the new path against the base of the
    build, and none for the old path; the entry is a header naming the
    old and the new path followed by the backend's answer, and the
    returned text holds both. *)
Theorem renamed_file_diffed w commit files staged_out out pre status post
    code old_file_name new_file_name more d :
  truthy commit = None →
  exec_and_get_output w staged_cmd = Ok staged_out →
  exec_and_get_output w
    (name_status_cmd (diff_base (splitlines staged_out)) files) = Ok out →
  splitlines out = pre ++ status :: post →
  split "009" status = code :: old_file_name :: new_file_name :: more →
  first_char code = Ok "R"%char →
  exec_and_get_output w
    (diff_cmd (diff_base (splitlines staged_out)) new_file_name) = Ok d →
  git_diff_context commit files w =
    finish (diff_base (splitlines staged_out)) files
      (between (diff_loop (diff_base (splitlines staged_out)) pre w)
         ["## File renamed: " +:+ old_file_name +:+ " -> " +:+ new_file_name; d]
         [EvExec (diff_cmd (diff_base (splitlines staged_out)) new_file_name)]
         (diff_loop (diff_base (splitlines staged_out)) post w)) ∧
  (∀ text t, git_diff_context commit files w = (Ok text, t) →
     embeds text (("## File renamed: " +:+ old_file_name +:+ " -> " +:+
                   new_file_name) +:+ LF +:+ d)).
Proof.
  intros Hcommit Hstaged Hstatus Hlines Hsplit Hcode Hexec.
  rewrite (git_diff_context_no_commit _ _ _ _ _ Hcommit Hstaged Hstatus).
  rewrite Hlines.
  rewrite (diff_loop_middle _ _ _ _ _ _ _
             (diff_entry_renamed _ _ _ _ _ _ _ _ Hsplit Hcode Hexec)).
  split; [done|]. intros text t.
  destruct (diff_loop _ pre w) as [[d1|e] t1]; [|done].
  destruct (diff_loop _ post w) as [[d2|e] t2]; [|done].
  cbn [between finish]. intros [= <- _]. apply join_embeds_pair.
Qed.

Lemma renamed_file_diffed_witness :
  git_diff_context None None renamed_world =
    finish "--cached" None
      (between (diff_loop "--cached" [] renamed_world)
         ["## File renamed: " +:+ "old.py" +:+ " -> " +:+ "new.py";
          "similarity index 100%" +:+ LF]
         [EvExec (diff_cmd "--cached" "new.py")]
         (diff_loop "--cached" [] renamed_world)) ∧
  (∀ text t, git_diff_context None None renamed_world = (Ok text, t) →
     embeds text (("## File renamed: " +:+ "old.py" +:+ " -> " +:+ "new.py")
                  +:+ LF +:+ ("similarity index 100%" +:+ LF))).
Proof.
  apply (renamed_file_diffed renamed_world None None ("new.py" +:+ LF)
           ("R100" +:+ TAB +:+ "old.py" +:+ TAB +:+ "new.py" +:+ LF)
           [] ("R100" +:+ TAB +:+ "old.py" +:+ TAB +:+ "new.py") []
           "R100" "old.py" "new.py" []); reflexivity.
Defined.

Lemma diff_entry_no_tab base status w code :
  split "009" status = [code] →
  diff_entry base status w = (Raise IndexError, []).
Proof.
  intros Hsplit. unfold diff_entry. rewrite Hsplit.
  destruct code as [|c code].
  - reflexivity.
  - cbv [mbind io_bind mret io_ret lift read exec index first_char
         lookup list_lookup app base_git_diff].
    by destruct (c =? "A")%char, (c =? "R")%char, (c =? "D")%char.
Qed.

(** X3: a status line without a tab, an empty line included, stops the
    build with IndexError: no call is made for that line, no later line
    is looked at, and the entries built so far are lost. *)
Theorem status_line_without_tab w commit files staged_out out pre status post
    code d1 t1 :
  truthy commit = None →
  exec_and_get_output w staged_cmd = Ok staged_out →
  exec_and_get_output w
    (name_status_cmd (diff_base (splitlines staged_out)) files) = Ok out →
  splitlines out = pre ++ status :: post →
  diff_loop (diff_base (splitlines staged_out)) pre w = (Ok d1, t1) →
  split "009" status = [code] →
  git_diff_context commit files w =
    (Raise IndexError,
     EvExec staged_cmd ::
     EvExec (name_status_cmd (diff_base (splitlines staged_out)) files) :: t1).
Proof.
  intros Hcommit Hstaged Hstatus Hlines Hpre Hsplit.
  rewrite (git_diff_context_no_commit _ _ _ _ _ Hcommit Hstaged Hstatus).
  rewrite Hlines. clear Hlines.
  assert (Hloop : diff_loop (diff_base (splitlines staged_out))
                    (pre ++ status :: post) w = (Raise IndexError, t1)).
  { revert d1 t1 Hpre. induction pre as [|s0 pre IH]; intros d1 t1 Hpre.
    - cbn [app]. rewrite diff_loop_cons, (diff_entry_no_tab _ _ _ _ Hsplit).
      cbn in Hpre. by injection Hpre as _ <-.
    - rewrite <-app_comm_cons, diff_loop_cons.
      rewrite diff_loop_cons in Hpre.
      destruct (diff_entry _ s0 w) as [[d0|e] t0]; [|done].
      destruct (diff_loop _ pre w) as [[ds|e] t'] eqn:Hrest; [|done].
      injection Hpre as _ <-. by rewrite (IH ds t' eq_refl). }
  by rewrite Hloop.
Qed.

Lemma status_line_without_tab_witness :
  git_diff_context None None garbled_world =
    (Raise IndexError,
     [EvExec staged_cmd; EvExec (name_status_cmd (diff_base (splitlines "")) None)]).
Proof.
  apply (status_line_without_tab garbled_world None None ""
           ("D" +:+ TAB +:+ "c.py" +:+ LF +:+ "fatal: bad revision" +:+ LF)
           ["D" +:+ TAB +:+ "c.py"] "fatal: bad revision" []
           "fatal: bad revision" ["## File deleted: c.py"] []); reflexivity.
Defined.

Lemma diff_entry_calls base status w d t :
  diff_entry base status w = (Ok d, t) →
  length t = (if is_deleted status then 0 else 1)%nat ∧
  (length d = 1 ∨ length d = 2)%nat.
Proof.
  unfold diff_entry, is_deleted.
  destruct (split "009" status) as [|[|c code] fields] eqn:Hsplit; [done..|].
  cbv [mbind io_bind mret io_ret lift read exec index first_char
       lookup list_lookup app base_git_diff].
  destruct (Ascii.eqb_spec c "A") as [->|HA].
  { destruct fields as [|file_name fields]; [done|].
    destruct (read_text w file_name); [|done]. intros [= <- <-]. auto. }
  destruct (Ascii.eqb_spec c "R") as [->|HR].
  { destruct fields as [|old [|new fields]]; [done..|].
    destruct (exec_and_get_output w _); [|done]. intros [= <- <-]. auto. }
  destruct (Ascii.eqb_spec c "D") as [->|HD].
  { destruct fields as [|file_name fields]; [done|]. intros [= <- <-]. auto. }
  destruct fields as [|file_name fields]; [done|].
  destruct (exec_and_get_output w _); [|done]. intros [= <- <-]. auto.
Qed.

Lemma diff_loop_calls base file_status w ds t :
  diff_loop base file_status w = (Ok ds, t) →
  length t = length (filter (λ status, is_deleted status = false) file_status).
Proof.
  revert ds t. induction file_status as [|status rest IH]; intros ds t.
  { by intros [= <- <-]. }
  rewrite diff_loop_cons.
  destruct (diff_entry base status w) as [[d|e] t0] eqn:Hentry; [|done].
  destruct (diff_loop base rest w) as [[ds'|e] t'] eqn:Hrest; [|done].
  intros [= <- <-]. apply diff_entry_calls in Hentry as [Hlen _].
  rewrite length_app, Hlen, (IH _ _ eq_refl), filter_cons.
  by destruct (is_deleted status).
Qed.

(** X4: the cost of a build in calls.  With a commit the build is one
    backend call.  Without one, a build that returns a text made the two
    queries and then exactly one call for every status line that is not
    a deletion, and none for a deletion. *)
Theorem calls_per_status_line w commit files text t :
  git_diff_context commit files w = (Ok text, t) →
  match truthy commit with
  | Some c => t = [EvExec ["git"; "show"; "--format=%B"; c]]
  | None =>
      ∃ staged_out out,
        exec_and_get_output w staged_cmd = Ok staged_out ∧
        exec_and_get_output w
          (name_status_cmd (diff_base (splitlines staged_out)) files) = Ok out ∧
        length t =
          (2 + length (filter (λ status, is_deleted status = false)
                         (splitlines out)))%nat
  end.
Proof.
  intros Hrun. destruct (truthy commit) as [c|] eqn:Hcommit.
  - unfold git_diff_context in Hrun. rewrite Hcommit in Hrun.
    unfold exec in Hrun. by injection Hrun as _ <-.
  - destruct (git_diff_context_Ok_inv _ _ _ _ _ Hcommit Hrun)
      as (staged_out & out & Hstaged & Hstatus).
    exists staged_out, out. split; [done|]. split; [done|].
    rewrite (git_diff_context_no_commit _ _ _ _ _ Hcommit Hstaged Hstatus)
      in Hrun.
    destruct (diff_loop _ (splitlines out) w) as [[ds|e] t'] eqn:Hloop;
      [|done].
    cbn [finish] in Hrun. injection Hrun as _ <-. cbn [length].
    by rewrite (diff_loop_calls _ _ _ _ _ Hloop).
Qed.

Lemma calls_per_status_line_witness :
  ∃ staged_out out,
    exec_and_get_output staged_world staged_cmd = Ok staged_out ∧
    exec_and_get_output staged_world
      (name_status_cmd (diff_base (splitlines staged_out)) None) = Ok out ∧
    length [EvExec staged_cmd; EvExec (name_status_cmd "--cached" None);
            EvExec (diff_cmd "--cached" "a.py"); EvRead "b.py"] =
      (2 + length (filter (λ status, is_deleted status = false)
                     (splitlines out)))%nat.
Proof.
  apply (calls_per_status_line staged_world None None
           ("## File changed: a.py" +:+ LF +:+
            "@@ -1,3 +1,3 @@" +:+ LF +:+ LF +:+
            "## New file added: b.py" +:+ LF +:+
            "print(1)" +:+ LF +:+ LF +:+
            "## File deleted: c.py")).
  reflexivity.
Defined.

Lemma diff_loop_entries base file_status w ds t :
  diff_loop base file_status w = (Ok ds, t) →
  ∃ entries,
    Forall2 (λ status entry, (diff_entry base status w).1 = Ok entry)
      file_status entries ∧
    Forall (λ entry, length entry = 1 ∨ length entry = 2)%nat entries ∧
    ds = concat entries.
Proof.
  revert ds t. induction file_status as [|status rest IH]; intros ds t.
  { intros [= <- <-]. exists []. by repeat constructor. }
  rewrite diff_loop_cons.
  destruct (diff_entry base status w) as [[d|e] t0] eqn:Hentry; [|done].
  destruct (diff_loop base rest w) as [[ds'|e] t'] eqn:Hrest; [|done].
  intros [= <- <-].
  destruct (IH _ _ eq_refl) as (entries & Hall & Hlen & ->).
  exists (d :: entries). split; [|split].
  - constructor; [by rewrite Hentry|done].
  - constructor; [|done]. by apply diff_entry_calls in Hentry as [_ ?].
  - done.
Qed.

(** X5: a build without a commit that returns a text made exactly one
    entry for every status line, in the order the backend listed the
    lines; an entry is one or two strings, and the text is all of them
    joined by line feeds. *)
Theorem one_entry_per_status_line w commit files text t :
  truthy commit = None →
  git_diff_context commit files w = (Ok text, t) →
  ∃ staged_out out entries,
    exec_and_get_output w staged_cmd = Ok staged_out ∧
    exec_and_get_output w
      (name_status_cmd (diff_base (splitlines staged_out)) files) = Ok out ∧
    Forall2 (λ status entry,
               (diff_entry (diff_base (splitlines staged_out)) status w).1 =
               Ok entry)
      (splitlines out) entries ∧
    Forall (λ entry, length entry = 1 ∨ length entry = 2)%nat entries ∧
    text = join LF (concat entries).
Proof.
  intros Hcommit Hrun.
  destruct (git_diff_context_Ok_inv _ _ _ _ _ Hcommit Hrun)
    as (staged_out & out & Hstaged & Hstatus).
  rewrite (git_diff_context_no_commit _ _ _ _ _ Hcommit Hstaged Hstatus)
    in Hrun.
  destruct (diff_loop _ (splitlines out) w) as [[ds|e] t'] eqn:Hloop; [|done].
  destruct (diff_loop_entries _ _ _ _ _ Hloop) as (entries & Hall & Hlen & ->).
  cbn [finish] in Hrun. injection Hrun as <- _.
  by exists staged_out, out, entries.
Qed.

Lemma one_entry_per_status_line_witness :
  ∃ staged_out out entries,
    exec_and_get_output staged_world staged_cmd = Ok staged_out ∧
    exec_and_get_output staged_world
      (name_status_cmd (diff_base (splitlines staged_out)) None) = Ok out ∧
    Forall2 (λ status entry,
               (diff_entry (diff_base (splitlines staged_out)) status
                  staged_world).1 = Ok entry)
      (splitlines out) entries ∧
    Forall (λ entry, length entry = 1 ∨ length entry = 2)%nat entries ∧
    "## File changed: a.py" +:+ LF +:+
    "@@ -1,3 +1,3 @@" +:+ LF +:+ LF +:+
    "## New file added: b.py" +:+ LF +:+
    "print(1)" +:+ LF +:+ LF +:+
    "## File deleted: c.py" = join LF (concat entries).
Proof.
  apply (one_entry_per_status_line staged_world None None _
           [EvExec staged_cmd; EvExec (name_status_cmd "--cached" None);
            EvExec (diff_cmd "--cached" "a.py"); EvRead "b.py"]);
    reflexivity.
Defined.

End GitContextMore.

(** ** Lines, continued *)

Section LinesMore.

Import PyStr Git GitFiles.

Ltac bits c := destruct c as [[] [] [] [] [] [] [] []].

Lemma linebreak_len_bytes s : linebreak_len s = linebreak_bytes s.
Proof.
  destruct s as [|c [|d [|e t]]]; [done|..].
  all: bits c; try reflexivity.
  all: bits d; try reflexivity.
  all: bits e; reflexivity.
Qed.

(** A boundary needs all its bytes: what is no boundary stays none when
    the text is cut short. *)
Lemma linebreak_len_cut c b s :
  linebreak_len (String c (b +:+ s)) = 0%nat →
  linebreak_len (String c b) = 0%nat.
Proof.
  rewrite !linebreak_len_bytes. unfold linebreak_bytes.
  destruct b as [|d [|e b]]; rewrite ?str_app_cons;
    repeat case_match; simplify_eq/=; done.
Qed.

(** A line feed completes no boundary begun before it. *)
Lemma linebreak_len_before_lf c b s :
  linebreak_len (String c b) = 0%nat →
  linebreak_len (String c (b +:+ String "010" s)) = 0%nat.
Proof.
  rewrite !linebreak_len_bytes. unfold linebreak_bytes.
  destruct b as [|d [|e b]]; rewrite ?str_app_cons;
    change ("" +:+ String "010" s) with (String "010" s);
    cbn [Ascii.eqb Bool.eqb andb orb];
    repeat case_match; simplify_eq/=; try done.
  match goal with H : _ && false = true |- _ => by rewrite andb_false_r in H end.
Qed.

Lemma unbroken_before_nil line : unbroken_before "" line = unbroken line.
Proof.
  induction line as [|c line IH]; [done|].
  cbn [unbroken_before unbroken]. by rewrite str_app_nil_r, IH.
Qed.

Lemma unbroken_before_cut rest line :
  unbroken_before rest line = true → unbroken line = true.
Proof.
  induction line as [|c line IH]; [done|].
  cbn [unbroken_before unbroken]. rewrite str_app_cons.
  destruct (linebreak_len (String c (line +:+ rest))) eqn:Hlen; [|done].
  by rewrite (linebreak_len_cut _ _ _ Hlen).
Qed.

Lemma unbroken_before_lf s line :
  unbroken line = true → unbroken_before (String "010" s) line = true.
Proof.
  induction line as [|c line IH]; [done|].
  cbn [unbroken_before unbroken]. rewrite str_app_cons.
  destruct (linebreak_len (String c line)) eqn:Hlen; [|done].
  by rewrite (linebreak_len_before_lf _ _ s Hlen).
Qed.

Lemma unbroken_before_snoc c rest line :
  unbroken_before (String c rest) line = true →
  linebreak_len (String c rest) = 0%nat →
  unbroken_before rest (line +:+ String c "") = true.
Proof.
  intros Hline Hc. induction line as [|d line IH].
  - change (unbroken_before rest ("" +:+ String c ""))
      with (match linebreak_len (String c rest) with
            | O => true | S _ => false end).
    by rewrite Hc.
  - rewrite str_app_cons. cbn [unbroken_before] in Hline |- *.
    rewrite !str_app_cons in *. rewrite str_app_assoc.
    change (String c "" +:+ rest) with (String c rest).
    destruct (linebreak_len (String d (line +:+ String c rest))); [|done].
    by apply IH.
Qed.

Lemma splitlines_from_unbroken s skip line :
  (skip = 0%nat → unbroken_before s line = true) →
  (skip ≠ 0%nat → line = "") →
  Forall (λ l, unbroken l = true) (splitlines_from s skip line).
Proof.
  revert skip line. induction s as [|c s IH]; intros skip line H0 HS.
  - cbn [splitlines_from]. destruct (String.eqb_spec line ""); [constructor|].
    repeat constructor. destruct skip; [|by destruct n; apply HS].
    rewrite <-unbroken_before_nil. by apply H0.
  - cbn [splitlines_from]. destruct skip as [|k].
    + specialize (H0 eq_refl).
      destruct (linebreak_len (String c s)) as [|k] eqn:Hlen.
      * apply IH; [|done]. intros _. by apply unbroken_before_snoc.
      * constructor; [by eapply unbroken_before_cut|].
        apply IH; [done|done].
    + rewrite (HS ltac:(done)). apply IH; [done|done].
Qed.

Lemma splitlines_from_line line rest acc :
  unbroken_before rest line = true →
  splitlines_from (line +:+ rest) 0 acc = splitlines_from rest 0 (acc +:+ line).
Proof.
  revert acc. induction line as [|c line IH]; intros acc Hline.
  - by rewrite str_app_nil_r.
  - cbn [unbroken_before] in Hline. rewrite str_app_cons in *.
    cbn [splitlines_from].
    destruct (linebreak_len (String c (line +:+ rest))); [|done].
    rewrite (IH _ Hline), str_app_assoc. done.
Qed.

Lemma splitlines_from_lf line rest :
  unbroken line = true →
  splitlines_from (line +:+ String "010" rest) 0 "" =
  line :: splitlines_from rest 0 "".
Proof.
  intros Hline.
  rewrite splitlines_from_line by by apply unbroken_before_lf.
  change ("" +:+ line) with line. reflexivity.
Qed.

Lemma lf_app s : LF +:+ s = String "010" s.
Proof. reflexivity. Qed.

Lemma splitlines_join_lf lines :
  Forall (λ l, unbroken l = true) lines →
  last lines ≠ Some "" →
  splitlines (join LF lines) = lines.
Proof.
  unfold splitlines. induction 1 as [|l ls Hl Hls IH]; intros Hlast; [done|].
  rewrite join_cons. destruct ls as [|l2 ls].
  - rewrite str_app_nil_r.
    rewrite <-(str_app_nil_r l) at 1.
    rewrite splitlines_from_line by by rewrite unbroken_before_nil.
    change ("" +:+ l) with l. cbn [splitlines_from].
    destruct (String.eqb_spec l "") as [->|]; [by destruct Hlast|done].
  - rewrite lf_app, splitlines_from_lf by done.
    f_equal. apply IH. by rewrite last_cons_cons in Hlast.
Qed.

Lemma splitlines_join_lf_terminated lines :
  Forall (λ l, unbroken l = true) lines →
  lines ≠ [] →
  splitlines (join LF lines +:+ LF) = lines.
Proof.
  unfold splitlines. induction 1 as [|l ls Hl Hls IH]; intros Hne; [done|].
  rewrite join_cons. destruct ls as [|l2 ls].
  - rewrite str_app_nil_r. unfold LF. by rewrite splitlines_from_lf.
  - rewrite str_app_assoc, lf_app, str_app_cons, splitlines_from_lf by done.
    f_equal. by apply IH.
Qed.

Lemma listing_run cmd w :
  (out ← exec cmd; mret (splitlines out)) w =
  (match exec_and_get_output w cmd with
   | Ok out => Ok (splitlines out)
   | Raise e => Raise e
   end, [EvExec cmd]).
Proof.
  rewrite io_bind_run. unfold exec.
  by destruct (exec_and_get_output w cmd).
Qed.

(** X6: what the backend prints one name per line, each ended by a line
    feed, is what [git_staged_files] and [git_unstaged_files] return:
    the same names in the same order, for one backend call each. *)
Theorem changed_files_listed names w :
  names ≠ [] →
  Forall (λ name, unbroken name = true) names →
  (exec_and_get_output w staged_cmd = Ok (join LF names +:+ LF) →
   git_staged_files w = (Ok names, [EvExec staged_cmd])) ∧
  (exec_and_get_output w ["git"; "diff"; "HEAD"; "--name-only"] =
     Ok (join LF names +:+ LF) →
   git_unstaged_files w =
     (Ok names, [EvExec ["git"; "diff"; "HEAD"; "--name-only"]])).
Proof.
  intros Hne Hnames.
  split; intros Hout; unfold git_staged_files, git_unstaged_files;
    rewrite listing_run; fold staged_cmd; rewrite Hout;
    by rewrite splitlines_join_lf_terminated.
Qed.

Lemma changed_files_listed_witness :
  git_staged_files listing_world = (Ok ["a.py"; "dir/b.py"], [EvExec staged_cmd]) ∧
  git_unstaged_files listing_world =
    (Ok ["a.py"; "dir/b.py"], [EvExec ["git"; "diff"; "HEAD"; "--name-only"]]).
Proof.
  destruct (changed_files_listed ["a.py"; "dir/b.py"] listing_world)
    as [Hstaged Hunstaged]; [done|by repeat constructor|].
  split; [apply Hstaged|apply Hunstaged]; reflexivity.
Defined.

(** X7: whatever the backend answers, the two listings make one call
    each, pass its failure on, return no name exactly when the answer
    is empty, and return no name that holds a line boundary. *)
Theorem changed_files_lines w :
  (git_staged_files w).2 = [EvExec staged_cmd] ∧
  (git_unstaged_files w).2 = [EvExec ["git"; "diff"; "HEAD"; "--name-only"]] ∧
  (∀ e, exec_and_get_output w staged_cmd = Raise e →
        (git_staged_files w).1 = Raise e) ∧
  (∀ e, exec_and_get_output w ["git"; "diff"; "HEAD"; "--name-only"] = Raise e →
        (git_unstaged_files w).1 = Raise e) ∧
  (∀ names, (git_staged_files w).1 = Ok names →
     Forall (λ name, unbroken name = true) names ∧
     (names = [] ↔ exec_and_get_output w staged_cmd = Ok "")) ∧
  (∀ names, (git_unstaged_files w).1 = Ok names →
     Forall (λ name, unbroken name = true) names ∧
     (names = [] ↔
      exec_and_get_output w ["git"; "diff"; "HEAD"; "--name-only"] = Ok "")).
Proof.
  unfold git_staged_files, git_unstaged_files. rewrite !listing_run.
  fold staged_cmd. cbn [fst snd].
  split; [done|]. split; [done|].
  split; [by intros e ->|]. split; [by intros e ->|].
  split; intros names;
    destruct (exec_and_get_output w _) as [out|e]; try done;
    intros [= <-]; (split; [by apply splitlines_from_unbroken|]);
    rewrite splitlines_nil; split; congruence.
Qed.

Lemma split_cons sep c s :
  split sep (String c s) =
  if Ascii.eqb c sep then "" :: split sep s
  else match split sep s with
       | p :: ps => String c p :: ps
       | [] => [String c ""]
       end.
Proof. reflexivity. Qed.

Lemma join_split sep s : join (String sep "") (split sep s) = s.
Proof.
  induction s as [|c s IH]; [done|]. rewrite split_cons.
  destruct (Ascii.eqb_spec c sep) as [->|Hne].
  - rewrite join_cons. pose proof (split_nonempty sep s).
    destruct (split sep s) as [|p ps]; [done|]. by rewrite IH.
  - pose proof (split_nonempty sep s).
    destruct (split sep s) as [|p ps]; [done|].
    rewrite join_cons in IH |- *. rewrite str_app_cons. by rewrite IH.
Qed.

Lemma split_app_sep sep p s :
  occurs sep p = false →
  split sep (p +:+ String sep s) = p :: split sep s.
Proof.
  induction p as [|c p IH]; intros Hp.
  - change ("" +:+ String sep s) with (String sep s).
    by rewrite split_cons, Ascii.eqb_refl.
  - cbn [occurs] in Hp. apply orb_false_iff in Hp as [Hc Hp].
    rewrite str_app_cons, split_cons, (Ascii.eqb_sym c sep), Hc.
    by rewrite (IH Hp).
Qed.

Lemma split_no_sep sep p : occurs sep p = false → split sep p = [p].
Proof.
  induction p as [|c p IH]; intros Hp; [done|].
  cbn [occurs] in Hp. apply orb_false_iff in Hp as [Hc Hp].
  by rewrite split_cons, (Ascii.eqb_sym c sep), Hc, (IH Hp).
Qed.

Lemma split_fields_free sep s :
  Forall (λ p, occurs sep p = false) (split sep s).
Proof.
  induction s as [|c s IH]; [by repeat constructor|]. rewrite split_cons.
  destruct (Ascii.eqb_spec c sep) as [->|Hne]; [by constructor|].
  destruct (split sep s) as [|p ps].
  - repeat constructor. cbn [occurs].
    apply orb_false_iff. split; [by apply Ascii.eqb_neq|done].
  - apply Forall_cons in IH as [Hp Hps]. constructor; [|done].
    cbn [occurs]. apply orb_false_iff. split; [by apply Ascii.eqb_neq|done].
Qed.

(** X8: the fields of a status line and the line determine each other:
    joining the fields of [s.split(sep)] with [sep] gives [s] back, no
    field holds [sep], and splitting the join of fields that do not
    hold [sep] gives the fields back. *)
Theorem split_join_round_trip sep :
  (∀ s, join (String sep "") (split sep s) = s ∧
        Forall (λ p, occurs sep p = false) (split sep s)) ∧
  (∀ fields, fields ≠ [] →
             Forall (λ p, occurs sep p = false) fields →
             split sep (join (String sep "") fields) = fields).
Proof.
  split; [intros s; split; [apply join_split|apply split_fields_free]|].
  intros fields Hne Hfree.
  induction Hfree as [|p ps Hp Hps IH]; [done|].
  rewrite join_cons. destruct ps as [|p2 ps].
  - rewrite str_app_nil_r. by apply split_no_sep.
  - rewrite str_app_cons.
    change ("" +:+ join (String sep "") (p2 :: ps))
      with (join (String sep "") (p2 :: ps)).
    rewrite (split_app_sep _ _ _ Hp). by rewrite IH.
Qed.

End LinesMore.

(** ** Model selection, continued *)

Section ModelSelectionMore.

Import Coder.

Lemma get_llm_model_name_inv env token_size c :
  compensate token_size = Ok c →
  get_llm_model_name env token_size =
  match first_fit (model_options env) (supported_engines env) c with
  | Some model => Ok (Some model, [(INFO, msg_using model c)])
  | None =>
      Ok (None,
          (CRITICAL, msg_too_large c) ::
          (if has_openrouter_key env then []
           else [(CRITICAL, msg_openrouter_hint)]))
  end.
Proof. unfold get_llm_model_name. by intros ->. Qed.

Lemma fits_smaller engines c c' tier :
  c ≤ c' → fits engines c' tier → fits engines c tier.
Proof. intros Hle [Hin Hcap]. split; [done|lia]. Qed.

(** X9: a request too large for every offered model stays so when it
    grows: if no model is returned for a compensated size, none is
    returned for any compensated size at least as large (and a request
    no larger than one that got a model gets a model). *)
Theorem unavailable_for_larger env token_size token_size' c c' :
  compensate token_size = Ok c →
  compensate token_size' = Ok c' →
  c ≤ c' →
  ((∃ log, get_llm_model_name env token_size = Ok (None, log)) →
   ∃ log, get_llm_model_name env token_size' = Ok (None, log)) ∧
  ((∃ model log, get_llm_model_name env token_size' = Ok (Some model, log)) →
   ∃ model log, get_llm_model_name env token_size = Ok (Some model, log)).
Proof.
  intros Hc Hc' Hle.
  rewrite (get_llm_model_name_inv _ _ _ Hc), (get_llm_model_name_inv _ _ _ Hc').
  assert (Hmono : first_fit (model_options env) (supported_engines env) c = None →
                  first_fit (model_options env) (supported_engines env) c' = None).
  { rewrite !first_fit_None. intros Hall.
    eapply Forall_impl; [exact Hall|].
    intros tier Hno Hfit. apply Hno. by eapply fits_smaller. }
  destruct (first_fit _ _ c) as [m|] eqn:Hff;
    destruct (first_fit _ _ c') as [m'|] eqn:Hff'.
  - split; [by intros [? [=]]|by eauto].
  - split; [by eauto|by intros (? & ? & [=])].
  - by specialize (Hmono eq_refl).
  - split; [by eauto|by intros (? & ? & [=])].
Qed.

Lemma unavailable_for_larger_witness :
  ((∃ log, get_llm_model_name gateway_env 40000 = Ok (None, log)) →
   ∃ log, get_llm_model_name gateway_env 50000 = Ok (None, log)) ∧
  ((∃ model log, get_llm_model_name gateway_env 50000 = Ok (Some model, log)) →
   ∃ model log, get_llm_model_name gateway_env 40000 = Ok (Some model, log)).
Proof.
  apply (unavailable_for_larger gateway_env 40000 50000 42000 52500);
    [reflexivity|reflexivity|lia].
Defined.

(** X10: through the gateway the choice depends on the compensated size
    alone: [openai/gpt-4] up to 8192 tokens, [openai/gpt-4-32k] up to
    32768, nothing beyond; the provider's engine listing plays no
    part, and only one critical record is logged on failure. *)
Theorem gateway_thresholds env token_size c :
  has_openrouter_key env = true →
  compensate token_size = Ok c →
  get_llm_model_name env token_size =
    if decide (c ≤ 8192) then
      Ok (Some "openai/gpt-4", [(INFO, msg_using "openai/gpt-4" c)])
    else if decide (c ≤ 32768) then
      Ok (Some "openai/gpt-4-32k", [(INFO, msg_using "openai/gpt-4-32k" c)])
    else Ok (None, [(CRITICAL, msg_too_large c)]).
Proof.
  intros Hgw Hc. rewrite (get_llm_model_name_inv _ _ _ Hc).
  unfold model_options, supported_engines. rewrite Hgw.
  unfold openrouter_model_options. rewrite !first_fit_cons.
  cbn [first_fit fmap list_fmap fst].
  assert (H1 : ∀ x, fits ["openai/gpt-4"; "openai/gpt-4-32k"] c
                       ("openai/gpt-4", x) ↔ c ≤ x).
  { intros x. unfold fits; cbn [fst snd].
    split; [by intros [_ ?]|]. intros ?. split; [by left|done]. }
  assert (H2 : ∀ x, fits ["openai/gpt-4"; "openai/gpt-4-32k"] c
                       ("openai/gpt-4-32k", x) ↔ c ≤ x).
  { intros x. unfold fits; cbn [fst snd].
    split; [by intros [_ ?]|]. intros ?. split; [by right; left|done]. }
  destruct (decide (c ≤ 8192)).
  - by rewrite decide_True by by apply H1.
  - rewrite decide_False by by rewrite H1.
    destruct (decide (c ≤ 32768)).
    + by rewrite decide_True by by apply H2.
    + by rewrite decide_False by by rewrite H2.
Qed.

Lemma gateway_thresholds_witness :
  get_llm_model_name gateway_env 20000 =
    if decide (21000 ≤ 8192) then
      Ok (Some "openai/gpt-4", [(INFO, msg_using "openai/gpt-4" 21000)])
    else if decide (21000 ≤ 32768) then
      Ok (Some "openai/gpt-4-32k", [(INFO, msg_using "openai/gpt-4-32k" 21000)])
    else Ok (None, [(CRITICAL, msg_too_large 21000)]).
Proof.
  apply (gateway_thresholds gateway_env 20000 21000); reflexivity.
Defined.

(** X11: a returned model is one the request may use: it is a tier of
    the table of the provider mode, the provider offers it, and its
    capacity is at least the compensated size; one INFO record names
    it and that size. *)
Theorem returned_model_fits env token_size c model log :
  compensate token_size = Ok c →
  get_llm_model_name env token_size = Ok (Some model, log) →
  (∃ max_tokens,
     (model, max_tokens) ∈ model_options env ∧
     model ∈ supported_engines env ∧
     c ≤ max_tokens) ∧
  log = [(INFO, msg_using model c)].
Proof.
  intros Hc. rewrite (get_llm_model_name_inv _ _ _ Hc).
  destruct (first_fit _ _ c) as [m|] eqn:Hff; [|done].
  intros [= -> <-]. split; [|done].
  apply first_fit_Some in Hff
    as (before & max_tokens & after & Heq & [Hin Hcap] & _).
  exists max_tokens. rewrite Heq. split; [|done].
  apply elem_of_app. right. by left.
Qed.

Lemma returned_model_fits_witness :
  (∃ max_tokens,
     ("gpt-4", max_tokens) ∈ model_options (direct_env all_engines) ∧
     "gpt-4" ∈ supported_engines (direct_env all_engines) ∧
     105 ≤ max_tokens) ∧
  [(INFO, "Using gpt-4 for token size 105")] = [(INFO, msg_using "gpt-4" 105)].
Proof.
  apply (returned_model_fits (direct_env all_engines) 100 105 "gpt-4");
    reflexivity.
Defined.

(** X12: with a provider key the gpt-4 family comes first: a 3.5 model
    is returned only when neither [gpt-4] nor [gpt-4-32k] is offered
    with room for the request, even where a 3.5 model would be the
    smaller fit; and [gpt-4] is returned whenever it is offered and the
    compensated size is at most 8192. *)
Theorem gpt4_preferred env token_size c :
  has_openrouter_key env = false →
  compensate token_size = Ok c →
  (∀ model log,
     get_llm_model_name env token_size = Ok (Some model, log) →
     model = "gpt-3.5-turbo" ∨ model = "gpt-3.5-turbo-16k" →
     ¬ fits (openai_engines env) c ("gpt-4", 8192) ∧
     ¬ fits (openai_engines env) c ("gpt-4-32k", 32768)) ∧
  (fits (openai_engines env) c ("gpt-4", 8192) →
   get_llm_model_name env token_size =
     Ok (Some "gpt-4", [(INFO, msg_using "gpt-4" c)])).
Proof.
  intros Hdirect Hc. rewrite (get_llm_model_name_inv _ _ _ Hc).
  unfold model_options, supported_engines. rewrite Hdirect.
  unfold openai_model_options. rewrite !first_fit_cons.
  split.
  - intros model log.
    destruct (decide (fits _ c ("gpt-4", 8192))).
    { intros [= <- _] [?|?]; done. }
    destruct (decide (fits _ c ("gpt-4-32k", 32768))).
    { intros [= <- _] [?|?]; done. }
    done.
  - intros Hfit. by rewrite decide_True.
Qed.

Lemma gpt4_preferred_witness :
  (∀ model log,
     get_llm_model_name (direct_env mixed_engines) 9000 = Ok (Some model, log) →
     model = "gpt-3.5-turbo" ∨ model = "gpt-3.5-turbo-16k" →
     ¬ fits (openai_engines (direct_env mixed_engines)) 9450 ("gpt-4", 8192) ∧
     ¬ fits (openai_engines (direct_env mixed_engines)) 9450
         ("gpt-4-32k", 32768)) ∧
  (fits (openai_engines (direct_env mixed_engines)) 9450 ("gpt-4", 8192) →
   get_llm_model_name (direct_env mixed_engines) 9000 =
     Ok (Some "gpt-4", [(INFO, msg_using "gpt-4" 9450)])).
Proof.
  apply (gpt4_preferred (direct_env mixed_engines) 9000 9450); reflexivity.
Defined.

End ModelSelectionMore.

(** ** The language model handle *)

Section Handles.

Import Coder Llm.

Variable callback : Type.

Lemma prefix_app s1 s2 : String.prefix s1 s2 = true → ∃ r, s2 = s1 +:+ r.
Proof.
  revert s2. induction s1 as [|a s1 IH]; intros s2 Hpre.
  - by exists s2.
  - destruct s2 as [|b s2]; [done|]. cbn [String.prefix] in Hpre.
    destruct (ascii_dec a b) as [->|]; [|done].
    destruct (IH _ Hpre) as [r ->]. by exists r.
Qed.

Lemma prefix_refl_app s1 r : String.prefix s1 (s1 +:+ r) = true.
Proof.
  induction s1 as [|a s1 IH]; [by destruct r|].
  rewrite str_app_cons. cbn [String.prefix].
  by destruct (ascii_dec a a).
Qed.

Lemma replace_from_skip old new c s k :
  replace_from old new (String c s) (S k) = replace_from old new s k.
Proof. reflexivity. Qed.

Lemma replace_from_here old new c s :
  replace_from old new (String c s) 0 =
  if String.prefix old (String c s)
  then new +:+ replace_from old new s (String.length old - 1)
  else String c (replace_from old new s 0).
Proof. reflexivity. Qed.

(** A name without a slash holds no ["openai/"]. *)
Lemma replace_no_slash s :
  occurs "/" s = false → replace "openai/" "" s = s.
Proof.
  unfold replace. induction s as [|c s IH]; intros Hs; [done|].
  rewrite replace_from_here.
  destruct (String.prefix "openai/" (String c s)) eqn:Hpre.
  - apply prefix_app in Hpre as [r Hr]. rewrite Hr in Hs.
    by rewrite occurs_app in Hs.
  - cbn [occurs] in Hs. apply orb_false_iff in Hs as [_ Hs].
    by rewrite (IH Hs).
Qed.

Lemma replace_router_prefix s :
  occurs "/" s = false → replace "openai/" "" ("openai/" +:+ s) = s.
Proof.
  intros Hs. unfold replace.
  change ("openai/" +:+ s)
    with (String "o" (String "p" (String "e" (String "n"
            (String "a" (String "i" (String "/" s))))))).
  rewrite replace_from_here.
  change (String "o" (String "p" (String "e" (String "n"
            (String "a" (String "i" (String "/" s)))))))
    with ("openai/" +:+ s) at 1.
  rewrite prefix_refl_app.
  change (String.length "openai/" - 1)%nat with 6%nat.
  rewrite !replace_from_skip.
  change ("" +:+ replace_from "openai/" "" s 0) with (replace "openai/" "" s).
  by apply replace_no_slash.
Qed.

(** X13: the tokenizer name of a routed model.  Through the gateway a
    model name made of ["openai/"] and a name without a slash is
    counted with the tokenizer of that name, and a name without a slash
    with its own; with a provider key the tokenizer name is the model
    name unchanged. *)
Theorem tokenizer_name config openai name verbose response_token_size
    temperature live streaming callbacks :
  occurs "/" name = false →
  (∀ key, config !! "openrouter_api_key" = Some key →
     (∃ llm o,
        get_llm callback config openai ("openai/" +:+ name) verbose
          response_token_size temperature live streaming callbacks =
          Found (llm, o) ∧
        tiktoken_model_name callback llm = name ∧
        model callback llm = "openai/" +:+ name) ∧
     (∃ llm o,
        get_llm callback config openai name verbose
          response_token_size temperature live streaming callbacks =
          Found (llm, o) ∧
        tiktoken_model_name callback llm = name)) ∧
  (∀ key model_name,
     config !! "openrouter_api_key" = None →
     config !! "openai_api_key" = Some key →
     ∃ llm o,
       get_llm callback config openai model_name verbose
         response_token_size temperature live streaming callbacks =
         Found (llm, o) ∧
       tiktoken_model_name callback llm = model_name).
Proof.
  intros Hname. split.
  - intros key Hkey. unfold get_llm, item. rewrite Hkey.
    rewrite bool_decide_eq_true_2 by by eexists.
    split; eexists _, _; (split; [reflexivity|]); cbn.
    + split; [by apply replace_router_prefix|done].
    + by apply replace_no_slash.
  - intros key model_name Hnone Hkey. unfold get_llm, item.
    rewrite Hnone, Hkey.
    rewrite bool_decide_eq_false_2 by by intros [? [=]].
    by eexists _, _.
Qed.

(** X14: which key and which endpoint a handle uses.  A router key,
    when configured, is the key of the handle and of the [openai]
    module whether or not a provider key is configured too, the
    endpoint becomes the router's and the router headers are sent;
    without it the provider key is used, no headers are sent and the
    endpoint is left as it was; with neither key the call fails on the
    missing provider key.  The headers are those [get_llm_headers]
    reports. *)
Theorem get_llm_credentials config openai model_name verbose
    response_token_size temperature live streaming callbacks :
  match
    get_llm callback config openai model_name verbose response_token_size
      temperature live streaming callbacks
  with
  | Found (llm, o) =>
      headers callback llm = get_llm_headers config ∧
      api_key o = Some (openai_api_key callback llm) ∧
      model callback llm = model_name ∧
      max_tokens callback llm = response_token_size ∧
      match config !! "openrouter_api_key" with
      | Some key =>
          openai_api_key callback llm = key ∧
          api_base o = "https://openrouter.ai/api/v1" ∧
          headers callback llm = Some router_headers
      | None =>
          config !! "openai_api_key" = Some (openai_api_key callback llm) ∧
          api_base o = api_base openai ∧
          headers callback llm = None
      end
  | KeyError key =>
      key = "openai_api_key" ∧
      config !! "openrouter_api_key" = None ∧
      config !! "openai_api_key" = None
  end.
Proof.
  unfold get_llm, get_llm_headers, item.
  destruct (config !! "openrouter_api_key") as [key|] eqn:Hrouter.
  - rewrite !bool_decide_eq_true_2 by by eexists. by cbn.
  - rewrite !bool_decide_eq_false_2 by by intros [? [=]].
    destruct (config !! "openai_api_key") as [key|] eqn:Hprovider; by cbn.
Qed.

(** X15: a model chosen through the gateway is counted with the
    tokenizer of the provider's model of the same capacity: the name
    [get_llm] gives the tokenizer for a name [get_llm_model_name]
    returned is a tier of the provider table with the same
    [max_tokens]. *)
Theorem routed_model_tokenizer env openai token_size c model_name log verbose
    response_token_size temperature live streaming callbacks :
  has_openrouter_key env = true →
  compensate token_size = Ok c →
  get_llm_model_name env token_size = Ok (Some model_name, log) →
  ∃ llm o max_tokens,
    get_llm callback (config env) openai model_name verbose
      response_token_size temperature live streaming callbacks =
      Found (llm, o) ∧
    (model_name, max_tokens) ∈ openrouter_model_options ∧
    (tiktoken_model_name callback llm, max_tokens) ∈ openai_model_options ∧
    c ≤ max_tokens.
Proof.
  intros Hgw Hc. unfold get_llm_model_name. rewrite Hc.
  destruct (first_fit _ _ c) as [m|] eqn:Hff; [|done]. intros [= -> _].
  apply first_fit_Some in Hff
    as (before & max_tokens & after & Heq & [_ Hcap] & _).
  assert (Hin : (model_name, max_tokens) ∈ openrouter_model_options).
  { unfold model_options in Heq. rewrite Hgw in Heq. rewrite Heq.
    apply elem_of_app. right. by left. }
  unfold has_openrouter_key in Hgw. unfold get_llm, item.
  rewrite Hgw. apply bool_decide_eq_true_1 in Hgw as [key Hkey].
  rewrite Hkey. eexists _, _, max_tokens.
  split; [reflexivity|]. split; [done|]. split; [|done]. cbn.
  unfold openrouter_model_options in Hin.
  repeat (apply elem_of_cons in Hin as [[= -> ->]|Hin]).
  - by left.
  - right. by left.
  - by apply elem_of_nil in Hin.
Qed.

End Handles.

Lemma tokenizer_name_witness :
  (∃ llm o,
     Llm.get_llm unit router_config
       {| Llm.api_key := None; Llm.api_base := "https://api.openai.com/v1" |}
       ("openai/" +:+ "gpt-4-32k") false Llm.DEFAULT_MAX_TOKENS
       Llm.PRECISE_TEMPERATURE None true None = Llm.Found (llm, o) ∧
     Llm.tiktoken_model_name unit llm = "gpt-4-32k" ∧
     Llm.model unit llm = "openai/" +:+ "gpt-4-32k") ∧
  (∃ llm o,
     Llm.get_llm unit router_config
       {| Llm.api_key := None; Llm.api_base := "https://api.openai.com/v1" |}
       "gpt-4-32k" false Llm.DEFAULT_MAX_TOKENS
       Llm.PRECISE_TEMPERATURE None true None = Llm.Found (llm, o) ∧
     Llm.tiktoken_model_name unit llm = "gpt-4-32k").
Proof.
  refine (proj1 (tokenizer_name unit router_config _ "gpt-4-32k" _ _ _ _ _ _ _)
            "sk-or" _); reflexivity.
Defined.

Lemma routed_model_tokenizer_witness :
  ∃ llm o max_tokens,
    Llm.get_llm unit (Coder.config gateway_env)
      {| Llm.api_key := None; Llm.api_base := "" |} "openai/gpt-4-32k" false
      Llm.DEFAULT_MAX_TOKENS Llm.PRECISE_TEMPERATURE None true None =
      Llm.Found (llm, o) ∧
    ("openai/gpt-4-32k", max_tokens) ∈ Coder.openrouter_model_options ∧
    (Llm.tiktoken_model_name unit llm, max_tokens) ∈ Coder.openai_model_options ∧
    8400 ≤ max_tokens.
Proof.
  apply (routed_model_tokenizer unit gateway_env _ 8000 8400 "openai/gpt-4-32k"
           [(INFO, "Using openai/gpt-4-32k for token size 8400")]);
    reflexivity.
Defined.

(** ** Directory structure, continued *)

Section DirectoryStructureMore.

Import Tree.

Variable fnmatch : string → string → bool.

Lemma accumulate_listing items depth structure :
  Forall (λ item, ∀ depth, render fnmatch item [] false depth =
                           Ok (listing item depth)) items →
  accumulate (λ item, render fnmatch item [] false depth) items structure =
  Ok (structure +:+
      foldr (λ item below, listing item depth +:+ below) "" items).
Proof.
  intros Hitems. revert structure.
  induction Hitems as [|item more Hitem _ IH]; intros structure.
  - cbn [foldr]. by rewrite str_app_nil_r.
  - rewrite accumulate_cons, Hitem, result_bind_Ok, IH.
    cbn [foldr]. by rewrite str_app_assoc.
Qed.

Lemma render_listing path :
  ∀ depth, render fnmatch path [] false depth = Ok (listing path depth).
Proof.
  induction path as [nm content|nm entries IH] using node_rect_entries;
    intros depth; [done|].
  cbn [render listing]. unfold own_patterns. rewrite result_bind_Ok.
  cbn [app ignored existsb]. by apply accumulate_listing.
Qed.

(** X16: with ignore files off and no pattern given, nothing is hidden
    and nothing can fail: the structure is one line for every file and
    directory below the path, each directory before its entries, the
    entries in [iterdir()] order, whatever the matcher. *)
Theorem structure_without_patterns path ignore_patterns indent h :
  inherited ignore_patterns h = [] →
  (generate_directory_structure fnmatch path ignore_patterns false indent h).1 =
  Ok (listing path indent).
Proof.
  intros Hnone.
  destruct (generate_directory_structure_by_value fnmatch path
              ignore_patterns false indent h) as [k ->].
  cbn [fst]. rewrite Hnone. apply render_listing.
Qed.

(** X17: the ignore file of a directory is read before the directory's
    name is tested.  A directory whose ignore file cannot be opened
    stops the rendering even when a pattern hides the directory; a
    directory hidden by an inherited pattern or by a pattern of its own
    ignore file renders as the empty string, and nothing below it is
    visited: the call creates its own pattern list and no other. *)
Theorem hidden_directory nm entries ignore_patterns use_gitignore indent h :
  match own_patterns use_gitignore (Dir nm entries) with
  | Raise e =>
      generate_directory_structure fnmatch (Dir nm entries) ignore_patterns
        use_gitignore indent h =
      (Raise e, h ++ [inherited ignore_patterns h])
  | Ok own =>
      ignored fnmatch nm (inherited ignore_patterns h ++ own) = true →
      generate_directory_structure fnmatch (Dir nm entries) ignore_patterns
        use_gitignore indent h =
      (Ok "", h ++ [inherited ignore_patterns h ++ own])
  end.
Proof.
  cbn [generate_directory_structure].
  rewrite st_bind_run, copy_or_new_run, st_bind_run, read_ignore_file.
  destruct (own_patterns use_gitignore (Dir nm entries)) as [own|e]; [|done].
  intros Hhidden. rewrite st_bind_run.
  rewrite <-(app_nil_r (h ++ [_])), deref_fresh, app_nil_r.
  by rewrite Hhidden.
Qed.

End DirectoryStructureMore.

Lemma structure_without_patterns_witness :
  (Tree.generate_directory_structure Tree.fnmatch_basic project None false 0 []).1 =
  Ok (listing project 0).
Proof.
  apply (structure_without_patterns Tree.fnmatch_basic project None 0%nat []).
  reflexivity.
Defined.

Lemma hidden_directory_witness :
  Tree.generate_directory_structure Tree.fnmatch_basic pycache None true 0 [] =
  (Ok "", [] ++ [inherited None [] ++ ["*"]]).
Proof.
  apply (hidden_directory Tree.fnmatch_basic "__pycache__"
           [Tree.File ".gitignore" ("*" +:+ LF);
            Tree.Dir "sub" [ Tree.Dir ".gitignore" [] ]] None true 0%nat []).
  reflexivity.
Defined.

(** ** Session store, continued *)

Section SessionStoreMore.

Import Sidekick.

Lemma store_parse u s : store (parse u s) = store s.
Proof. by destruct u. Qed.

Lemma writes_parse u s : writes (parse u s) = writes s.
Proof. by destruct u. Qed.

Lemma written_other_keys s k :
  k ≠ "files" → written s !! k = store s !! k.
Proof. intros Hk. unfold written. by rewrite lookup_insert_ne. Qed.

Lemma kept_refl s : kept s s.
Proof. exists []. by rewrite app_nil_r. Qed.

Lemma kept_parse u s : kept s (parse u s).
Proof. exists []. by rewrite app_nil_r, store_parse, writes_parse. Qed.

Lemma kept_sync s : kept s (sync s).
Proof.
  unfold kept. rewrite writes_sync, store_sync. case_bool_decide.
  - exists [written s]. repeat split. repeat constructor.
    intros k Hk. by apply written_other_keys.
  - exists []. by rewrite app_nil_r.
Qed.

Lemma kept_trans s1 s2 s3 : kept s1 s2 → kept s2 s3 → kept s1 s3.
Proof.
  intros (new1 & Hw1 & Hs1 & Hk1) (new2 & Hw2 & Hs2 & Hk2).
  assert (Hstore : ∀ k, k ≠ "files" → store s2 !! k = store s1 !! k).
  { intros k Hk. rewrite Hs1.
    destruct new1 as [|r new1 _] using rev_ind; [done|].
    rewrite last_snoc. cbn. apply Forall_app in Hk1 as [_ Hr].
    by apply (Forall_inv Hr). }
  exists (new1 ++ new2). split; [by rewrite Hw2, Hw1, app_assoc|]. split.
  - rewrite Hs2. destruct new2 as [|r new2 _] using rev_ind.
    + by rewrite app_nil_r.
    + by rewrite app_assoc, !last_snoc.
  - apply Forall_app. split; [done|].
    eapply Forall_impl; [exact Hk2|]. intros record Hrecord k Hk.
    by rewrite Hrecord, Hstore.
Qed.

Lemma kept_loop request turns s : kept s (loop request turns s).
Proof.
  revert s. induction turns as [|t rest IH]; intros s; [apply kept_refl|].
  cbn [loop]. destruct (outcome t).
  - apply kept_parse.
  - eapply kept_trans; [apply kept_parse|].
    eapply kept_trans; [apply kept_sync|apply IH].
  - eapply kept_trans; [apply kept_parse|].
    destruct (interrupted t), request;
      (eapply kept_trans; [apply kept_sync|first [apply IH|apply kept_refl]]).
Qed.

(** X18: the store after a session.  Whatever the turns, the records
    written are added after those written before, the store holds the
    last record written (or what it held when none was), and every
    record written differs from the store the session started from in
    the key ["files"] alone: the other keys of the stored record are
    carried over. *)
Theorem session_record_kept request turns s :
  ∃ new,
    writes (loop request turns s) = writes s ++ new ∧
    store (loop request turns s) = default (store s) (last new) ∧
    Forall (λ record, ∀ k, k ≠ "files" → record !! k = store s !! k) new ∧
    (∀ k, k ≠ "files" → store (loop request turns s) !! k = store s !! k).
Proof.
  destruct (kept_loop request turns s) as (new & Hw & Hs & Hk).
  exists new. repeat (split; [done|]).
  intros k Hneq. rewrite Hs.
  destruct new as [|r new _] using rev_ind; [done|].
  rewrite last_snoc. cbn. apply Forall_app in Hk as [_ Hr].
  by apply (Forall_inv Hr).
Qed.

(** X19: where the loop stops.  Nothing the user would type after a
    turn that the parse answers with BREAK is processed, nor, when a
    request was given on the command line, after the first request
    whose answer was not interrupted. *)
Theorem loop_stops request before t after s :
  (outcome t = BREAK ∨
   (request = true ∧ interrupted t = false ∧ ∃ text, outcome t = Request text)) →
  loop request (before ++ t :: after) s = loop request (before ++ [t]) s.
Proof.
  intros Hstop. revert s. induction before as [|t0 before IH]; intros s.
  - cbn [app loop].
    destruct Hstop as [->|(-> & -> & text & ->)]; done.
  - cbn [app loop]. destruct (outcome t0); [done|apply IH|].
    destruct (interrupted t0), request; first [apply IH|done].
Qed.

Lemma loop_stops_witness :
  loop false ([control (Rebind {[ "a.py" ]})] ++
              {| update := InPlace ∅; outcome := BREAK; interrupted := false |} ::
              [control (Rebind {[ "b.py" ]})]) started_with_a =
  loop false ([control (Rebind {[ "a.py" ]})] ++
              [{| update := InPlace ∅; outcome := BREAK; interrupted := false |}])
    started_with_a.
Proof. apply loop_stops. by left. Defined.

Lemma shared_no_write request turns s :
  Forall in_place turns →
  chat_files s = completer_files s →
  writes (loop request turns s) = writes s.
Proof.
  intros Hturns. revert s.
  induction Hturns as [|t rest [new Hu] _ IH]; intros s Hshared; [done|].
  assert (Hsync : sync (parse (update t) s) = parse (update t) s).
  { unfold sync. rewrite Hu. cbn. rewrite Hshared.
    by rewrite bool_decide_eq_false_2 by by intros []. }
  assert (Hshared' : chat_files (parse (update t) s) =
                     completer_files (parse (update t) s)).
  { by rewrite Hu. }
  cbn [loop]. rewrite Hsync.
  destruct (outcome t); [by rewrite writes_parse|..].
  - by rewrite IH, writes_parse.
  - destruct (interrupted t), request;
      by rewrite ?IH, writes_parse.
Qed.

(** X20: when the chat edits its file set in place, the store is
    written at most once in a session, however often the set changes
    afterwards: the first write makes the completer share the chat's
    set object, and two references to one object never differ.  When
    they share the object from the start, nothing is ever written. *)
Theorem in_place_single_write request turns s :
  Forall in_place turns →
  (length (writes (loop request turns s)) ≤ length (writes s) + 1)%nat ∧
  (chat_files s = completer_files s →
   writes (loop request turns s) = writes s).
Proof.
  intros Hturns. split; [|by apply shared_no_write].
  revert s. induction Hturns as [|t rest [new Hu] Hrest IH]; intros s.
  { cbn. lia. }
  assert (Hstep : (length (writes (loop request rest (sync (parse (update t) s))))
                   ≤ length (writes s) + 1)%nat).
  { unfold sync. case_bool_decide as Hdiff.
    - rewrite shared_no_write by done. cbn.
      rewrite length_app, writes_parse. cbn. lia.
    - specialize (IH (parse (update t) s)). by rewrite writes_parse in IH. }
  cbn [loop]. destruct (outcome t).
  - rewrite writes_parse. lia.
  - done.
  - destruct (interrupted t), request; try done.
    rewrite writes_sync, length_app, writes_parse.
    case_bool_decide; cbn; lia.
Qed.

Lemma in_place_single_write_witness :
  (length (writes (loop false
             [control (InPlace {[ "a.py"; "b.py" ]});
              control (InPlace {[ "a.py"; "b.py"; "c.py" ]})] started_with_a))
   ≤ length (writes started_with_a) + 1)%nat ∧
  (chat_files started_with_a = completer_files started_with_a →
   writes (loop false
             [control (InPlace {[ "a.py"; "b.py" ]});
              control (InPlace {[ "a.py"; "b.py"; "c.py" ]})] started_with_a) =
   writes started_with_a).
Proof.
  apply (in_place_single_write false
           [control (InPlace {[ "a.py"; "b.py" ]});
            control (InPlace {[ "a.py"; "b.py"; "c.py" ]})] started_with_a).
  repeat constructor; by eexists.
Defined.

(** What the edits of the witness leave behind: the set ends with
    [c.py], the store without it. *)
Example in_place_edit_lost :
  active (loop false
            [control (InPlace {[ "a.py"; "b.py" ]});
             control (InPlace {[ "a.py"; "b.py"; "c.py" ]})] started_with_a) =
    {[ "a.py"; "b.py"; "c.py" ]} ∧
  persisted (store (loop false
            [control (InPlace {[ "a.py"; "b.py" ]});
             control (InPlace {[ "a.py"; "b.py"; "c.py" ]})] started_with_a)) =
    {[ "a.py"; "b.py" ]}.
Proof. split; by vm_compute. Qed.

(** X21: after every turn that does not end the loop the completer
    offers the files of the chat: from a state whose references point
    to set objects, a run of turns none of which is answered with BREAK
    ends with the two file sets equal and both references valid. *)
Theorem completer_follows_chat request turns s :
  well_formed s →
  turns ≠ [] →
  Forall (λ t, outcome t ≠ BREAK) turns →
  synced (loop request turns s) = active (loop request turns s) ∧
  well_formed (loop request turns s).
Proof.
  intros Hwf Hne Hturns. revert s Hwf.
  induction Hturns as [|t rest Ht Hrest IH]; intros s Hwf; [done|].
  pose proof (well_formed_sync _ (well_formed_parse (update t) _ Hwf)) as Hwf'.
  assert (Hnow : synced (sync (parse (update t) s)) =
                 active (sync (parse (update t) s)) ∧
                 well_formed (sync (parse (update t) s))).
  { split; [apply synced_sync|done]. }
  assert (Hlater : synced (loop request rest (sync (parse (update t) s))) =
                   active (loop request rest (sync (parse (update t) s))) ∧
                   well_formed (loop request rest (sync (parse (update t) s)))).
  { destruct rest as [|t' rest]; [done|]. by apply IH. }
  cbn [loop]. destruct (outcome t); [done|done|].
  by destruct (interrupted t), request.
Qed.

Lemma completer_follows_chat_witness :
  synced (loop false [control (Rebind {[ "b.py" ]})] started_with_a) =
    active (loop false [control (Rebind {[ "b.py" ]})] started_with_a) ∧
  well_formed (loop false [control (Rebind {[ "b.py" ]})] started_with_a).
Proof.
  apply (completer_follows_chat false [control (Rebind {[ "b.py" ]})]
           started_with_a).
  - split; cbn; lia.
  - done.
  - by repeat constructor.
Defined.

End SessionStoreMore.

(** ** The agent loop *)

Section AgentLoop.

Import Agent.

Lemma prefix_extend p a r :
  String.prefix p a = true → String.prefix p (a +:+ r) = true.
Proof.
  revert a. induction p as [|c p IH]; intros a Hp.
  - by destruct (a +:+ r).
  - destruct a as [|d a]; [done|]. rewrite str_app_cons.
    cbn [String.prefix] in Hp |- *.
    destruct (ascii_dec c d); [by apply IH|done].
Qed.

(** [s.split(sep)[0]] is the part of [s] before the first [sep]. *)
Lemma before_spec sep s :
  sep ≠ "" →
  contains sep (before sep s) = false ∧
  ∃ rest, s = before sep s +:+ rest ∧
          (rest = "" ∨ String.prefix sep rest = true).
Proof.
  intros Hsep. induction s as [|c s (IHno & rest & IHs & IHrest)].
  - split; [by destruct sep|]. exists "". by split; [|left].
  - cbn [before]. destruct (String.prefix sep (String c s)) eqn:Hpre.
    + split; [by destruct sep|]. exists (String c s). by split; [|right].
    + split.
      * cbn [contains]. rewrite IHno, orb_false_r.
        destruct (String.prefix sep (String c (before sep s))) eqn:Hcut;
          [|done].
        apply (prefix_extend _ _ rest) in Hcut.
        rewrite str_app_cons, <-IHs in Hcut. congruence.
      * exists rest. split; [|done]. by rewrite str_app_cons, <-IHs.
Qed.

Lemma rev_app_twice s acc acc' :
  String.rev_app (String.rev_app s acc) acc' = String.rev_app acc (s +:+ acc').
Proof.
  revert acc. induction s as [|a s IH]; intros acc; [done|].
  cbn [String.rev_app]. by rewrite IH.
Qed.

Lemma rev_rev s : String.rev (String.rev s) = s.
Proof.
  unfold String.rev. rewrite rev_app_twice. cbn [String.rev_app].
  apply str_app_nil_r.
Qed.

Lemma rev_app_app s1 s2 acc :
  String.rev_app (s1 +:+ s2) acc = String.rev_app s2 (String.rev_app s1 acc).
Proof.
  revert acc. induction s1 as [|a s1 IH]; intros acc; [done|].
  rewrite str_app_cons. cbn [String.rev_app]. by rewrite IH.
Qed.

Lemma rev_snoc2 s a b :
  String.rev (s +:+ String a (String b "")) =
  String b (String a (String.rev s)).
Proof. unfold String.rev. by rewrite rev_app_app. Qed.

Lemma banner_no_response text e : PrintResponse text ∉ banner e.
Proof.
  destruct e as [[|c s]|]; cbn; [by apply not_elem_of_nil| |by apply not_elem_of_nil].
  intros Hin. by apply list_elem_of_singleton in Hin.
Qed.

Lemma respond_cut t human_input text :
  PrintResponse text ∈ respond t human_input →
  text = before "Action:" (response t).
Proof.
  unfold respond. intros Hin. apply elem_of_cons in Hin as [[=]|Hin].
  by apply list_elem_of_singleton in Hin as [= ->].
Qed.

(** Turns that do not ask for the editor leave [edited_input] alone. *)
Lemma plain_turns turns edited_input :
  Forall (λ t, plain t = true) turns →
  sidekick_agent turns edited_input =
  concat (answered edited_input <$> requests turns).
Proof.
  unfold requests.
  induction 1 as [|t rest Ht _ IH]; [done|].
  cbn [sidekick_agent]. unfold plain in Ht. apply negb_true_iff in Ht.
  rewrite Ht, filter_cons.
  destruct (String.eqb_spec (Tree.strip (typed t)) "") as [Hblank|Hreq].
  - by rewrite decide_False by by intros [].
  - rewrite decide_True by done. rewrite fmap_cons. cbn [concat].
    unfold answered at 1. by rewrite IH, <-app_assoc.
Qed.

(** X22: a session without edits.  When no line asks for the editor,
    the loop does nothing for a line that is empty or blank, and for
    every other line runs the agent once on the stripped line and
    prints the answer up to its first ["Action:"]; if an edited text is
    left over from before, its banner is printed again before each of
    them. *)
Theorem plain_session turns edited_input :
  Forall (λ t, plain t = true) turns →
  sidekick_agent turns edited_input =
    concat (answered edited_input <$> requests turns) ∧
  omap (λ a, match a with Run human_input => Some human_input | _ => None end)
       (sidekick_agent turns edited_input) =
    (λ t, Some (Tree.strip (typed t))) <$> requests turns.
Proof.
  intros Hplain. rewrite plain_turns by done. split; [done|].
  clear Hplain. induction (requests turns) as [|t rest IH]; [done|].
  rewrite !fmap_cons. cbn [concat]. rewrite omap_app, IH.
  unfold answered. rewrite omap_app.
  by destruct edited_input as [[|c s]|].
Qed.

(** X23: an answer is never printed past its first ["Action:"]:
    whatever the turns, every text printed as a response holds no
    ["Action:"], and it is the answer the agent gave in one of the
    turns, cut where its first ["Action:"] began. *)
Theorem response_cut turns edited_input text :
  PrintResponse text ∈ sidekick_agent turns edited_input →
  contains "Action:" text = false ∧
  ∃ t rest,
    t ∈ turns ∧
    response t = text +:+ rest ∧
    (rest = "" ∨ String.prefix "Action:" rest = true).
Proof.
  assert (Hrespond : ∀ t human_input,
            PrintResponse text ∈ respond t human_input →
            contains "Action:" text = false ∧
            ∃ rest, response t = text +:+ rest ∧
                    (rest = "" ∨ String.prefix "Action:" rest = true)).
  { intros t human_input Hin. apply respond_cut in Hin as ->.
    by apply before_spec. }
  revert edited_input. induction turns as [|t rest IH]; intros edited_input.
  { intros Hin. by apply elem_of_nil in Hin. }
  assert (Hlater : ∀ e, PrintResponse text ∈ sidekick_agent rest e →
            contains "Action:" text = false ∧
            ∃ t0 r, t0 ∈ t :: rest ∧ response t0 = text +:+ r ∧
                    (r = "" ∨ String.prefix "Action:" r = true)).
  { intros e Hin. destruct (IH e Hin) as (Hno & t0 & r & Ht0 & Heq & Hr).
    split; [done|]. exists t0, r. split; [by right|done]. }
  assert (Hnow : ∀ human_input, PrintResponse text ∈ respond t human_input →
            contains "Action:" text = false ∧
            ∃ t0 r, t0 ∈ t :: rest ∧ response t0 = text +:+ r ∧
                    (r = "" ∨ String.prefix "Action:" r = true)).
  { intros human_input Hin.
    destruct (Hrespond t human_input Hin) as (Hno & r & Heq & Hr).
    split; [done|]. exists t, r. split; [by left|done]. }
  cbn [sidekick_agent].
  destruct (String.eqb (Tree.strip (typed t)) ""); [by apply Hlater|].
  destruct (asks_for_edit (Tree.strip (typed t))).
  - intros Hin. apply elem_of_cons in Hin as [[=]|Hin].
    apply elem_of_app in Hin as [Hin|Hin]; [by apply banner_no_response in Hin|].
    apply elem_of_app in Hin as [Hin|Hin]; [by eapply Hnow|by eapply Hlater].
  - intros Hin.
    apply elem_of_app in Hin as [Hin|Hin]; [by apply banner_no_response in Hin|].
    apply elem_of_app in Hin as [Hin|Hin]; [by eapply Hnow|by eapply Hlater].
Qed.

(** X24: a line that ends in a backslash and an [e] of either case
    opens the editor on the stripped line without those two
    characters.  The agent is run on what the editor returns, on
    [None] when the editor is closed without saving, whatever was
    edited before; and the text returned is the one whose banner every
    later plain request prints again. *)
Theorem edit_turn t rest edited_input text e :
  Tree.strip (typed t) = text +:+ String "\" (String e "") →
  e = "e"%char ∨ e = "E"%char →
  Forall (λ t, plain t = true) rest →
  sidekick_agent (t :: rest) edited_input =
  Edit text ::
  banner (edited t) ++ [Run (edited t);
                        PrintResponse (before "Action:" (response t))] ++
  concat (answered (edited t) <$> requests rest).
Proof.
  intros Hline He Hrest. cbn [sidekick_agent]. rewrite Hline.
  assert (Hne : String.eqb (text +:+ String "\" (String e "")) "" = false).
  { by destruct text. }
  assert (Hedit : asks_for_edit (text +:+ String "\" (String e "")) = true).
  { unfold asks_for_edit. rewrite rev_snoc2. by destruct He as [->| ->]. }
  assert (Hdrop : drop_last2 (text +:+ String "\" (String e "")) = text).
  { unfold drop_last2. by rewrite rev_snoc2, rev_rev. }
  by rewrite Hne, Hedit, Hdrop, plain_turns.
Qed.

End AgentLoop.

Lemma response_cut_witness :
  contains "Action:" ("Done: two files" +:+ LF) = false ∧
  ∃ t rest,
    t ∈ [{| Agent.typed := "  list files "; Agent.edited := None;
            Agent.response := chatty |}] ∧
    Agent.response t = ("Done: two files" +:+ LF) +:+ rest ∧
    (rest = "" ∨ String.prefix "Action:" rest = true).
Proof.
  apply (response_cut
           [{| Agent.typed := "  list files "; Agent.edited := None;
               Agent.response := chatty |}] None).
  right. left.
Defined.

Lemma plain_session_witness :
  Agent.sidekick_agent
    [{| Agent.typed := "   "; Agent.edited := None; Agent.response := "" |};
     {| Agent.typed := "  list files "; Agent.edited := None;
        Agent.response := chatty |}] (Some "old") =
  [Agent.PrintRequest ("Request:" +:+ LF +:+ "old");
   Agent.Run (Some "list files");
   Agent.PrintResponse ("Done: two files" +:+ LF)].
Proof.
  apply (plain_session
           [{| Agent.typed := "   "; Agent.edited := None;
               Agent.response := "" |};
            {| Agent.typed := "  list files "; Agent.edited := None;
               Agent.response := chatty |}] (Some "old")).
  by repeat constructor.
Defined.

Lemma edit_turn_witness :
  Agent.sidekick_agent
    [{| Agent.typed := " fix the bug\E "; Agent.edited := Some "fix it";
        Agent.response := chatty |};
     {| Agent.typed := "thanks"; Agent.edited := None;
        Agent.response := "ok" |}] (Some "old") =
  [Agent.Edit "fix the bug";
   Agent.PrintRequest ("Request:" +:+ LF +:+ "fix it");
   Agent.Run (Some "fix it");
   Agent.PrintResponse ("Done: two files" +:+ LF);
   Agent.PrintRequest ("Request:" +:+ LF +:+ "fix it");
   Agent.Run (Some "thanks");
   Agent.PrintResponse "ok"].
Proof.
  apply (edit_turn
           {| Agent.typed := " fix the bug\E "; Agent.edited := Some "fix it";
              Agent.response := chatty |}
           [{| Agent.typed := "thanks"; Agent.edited := None;
               Agent.response := "ok" |}]
           (Some "old") "fix the bug" "E").
  - reflexivity.
  - by right.
  - by repeat constructor.
Defined.

(** ** The model of each request *)

Section Serving.

Import Models.

Variable choose_model : Z → option string.

Lemma serve_step task size s :
  settled s →
  settled (serve choose_model task size s).1 ∧
  current_model_name (serve choose_model task size s).1 = choose_model size ∧
  omap run_of (serve choose_model task size s).2 = [(choose_model size, task)] ∧
  omap notice_of (serve choose_model task size s).2 =
    (if bool_decide (choose_model size ≠ current_model_name s)
     then [(choose_model size, size)] else []).
Proof.
  intros [Hmodel Hchain]. unfold serve. case_bool_decide as Hdiff; cbn.
  - done.
  - rewrite Hchain. by split; [|split; [|split; [rewrite Hdiff|]]].
Qed.

(** X25: every request is run on the chain of the model chosen for its
    own size.  From a state in which the handle and the chain are those
    of the current model (as at start-up), the chain is rebuilt exactly
    when the model chosen for a request differs from the current one,
    a switch is announced exactly then, and the handle, the chain and
    the current model name agree again after every request. *)
Theorem requests_run_on_chosen_model requests s :
  settled s →
  omap run_of (serve_all choose_model requests s).2 =
    (λ request, (choose_model request.2, request.1)) <$> requests ∧
  omap notice_of (serve_all choose_model requests s).2 =
    switches choose_model (current_model_name s) requests ∧
  settled (serve_all choose_model requests s).1.
Proof.
  revert s. induction requests as [|[task size] rest IH]; intros s Hs; [done|].
  cbn [serve_all].
  destruct (serve_step task size s Hs) as (Hs1 & Hcur & Hrun & Hnote).
  destruct (serve choose_model task size s) as [s1 shown]. cbn [fst snd] in *.
  destruct (IH s1 Hs1) as (IHrun & IHnote & IHs).
  destruct (serve_all choose_model rest s1) as [s2 later]. cbn [fst snd] in *.
  rewrite !omap_app, Hrun, Hnote, IHrun, IHnote, Hcur.
  split; [done|]. split; [|done]. cbn [switches].
  case_bool_decide as Hdiff; [done|].
  cbn [app]. by rewrite Hdiff.
Qed.

End Serving.

Lemma requests_run_on_chosen_model_witness :
  omap run_of
    (Models.serve_all two_models [("explain", 9000); ("shorten", 100)]
       (Models.init two_models 100)).2 =
    (λ request, (two_models request.2, request.1)) <$>
      [("explain", 9000); ("shorten", 100)] ∧
  omap notice_of
    (Models.serve_all two_models [("explain", 9000); ("shorten", 100)]
       (Models.init two_models 100)).2 =
    switches two_models
      (Models.current_model_name (Models.init two_models 100))
      [("explain", 9000); ("shorten", 100)] ∧
  settled
    (Models.serve_all two_models [("explain", 9000); ("shorten", 100)]
       (Models.init two_models 100)).1.
Proof.
  apply (requests_run_on_chosen_model two_models
           [("explain", 9000); ("shorten", 100)] (Models.init two_models 100)).
  split; reflexivity.
Defined.
